(** * Network utilization dashboard: validator, filter layer and aggregation engine

    A shallow embedding of [app.py] (loader [read_network_csv], alias
    resolution [_apply_aliases], the sidebar filter [mask]) and of
    [src/analyze_network.py] ([compute_aggregations]), together with the
    pandas / numpy operations these functions call.

    Conventions of the embedding.
    - A float64 cell is a value of [Num.t]: a finite rational, one of the two
      infinities, or [NaN].  pandas represents a missing numeric cell by
      [NaN], so "null" and [NaN] coincide, as they do in the program.
      Arithmetic on finite values is exact; rounding and signed zeros are
      not represented.
    - A timestamp is a number of nanoseconds since the epoch ([Z]); [NaT] is
      [None].  A calendar date is a number of days since the epoch.
    - A categorical cell is an [option string]; [None] is the missing cell.
    - Python exceptions are values of an error type carried by [result]. *)

From Stdlib Require Import ZArith QArith Qround Bool List String Ascii.
From Stdlib Require Import Permutation Sorted Lia RelationClasses.
Import ListNotations.

Set Implicit Arguments.
Open Scope Z_scope.

(** ** Results of fallible code *)

Inductive result (E A : Type) : Type :=
| Ok (a : A)
| Err (e : E).
Arguments Ok {E A} a.
Arguments Err {E A} e.

Definition bind {E A B} (m : result E A) (k : A -> result E B) : result E B :=
  match m with
  | Ok a => k a
  | Err e => Err e
  end.

Notation "x <- m ;; k" := (bind m (fun x => k))
  (at level 61, m at next level, right associativity).

Fixpoint mapM {E A B} (f : A -> result E B) (l : list A) : result E (list B) :=
  match l with
  | [] => Ok []
  | a :: l' => b <- f a ;; bs <- mapM f l' ;; Ok (b :: bs)
  end.

(** ** Stable sorting

    [np.lexsort], which pandas uses for a sort on several columns, is a
    stable sort.  It is modelled by insertion sort: an element is placed in
    front of the first element it does not come after, so that elements
    that compare equal keep their input order. *)

Section StableSort.
Variable A : Type.
Variable leb : A -> A -> bool.

Fixpoint insert (x : A) (l : list A) : list A :=
  match l with
  | [] => [x]
  | y :: l' => if leb x y then x :: l else y :: insert x l'
  end.

Definition sort (l : list A) : list A := fold_right insert [] l.
End StableSort.

(** ** Float cells *)

Module Num.

Inductive t : Type :=
| NaN
| NegInf
| Fin (q : Q)
| PosInf.

Definition isna (x : t) : bool :=
  match x with NaN => true | _ => false end.

Definition notna (x : t) : bool := negb (isna x).

(** IEEE comparison: every comparison with [NaN] is false. *)
Definition leb (x y : t) : bool :=
  match x, y with
  | NaN, _ | _, NaN => false
  | NegInf, _ => true
  | _, PosInf => true
  | Fin a, Fin b => Qle_bool a b
  | _, _ => false
  end.

Definition geb (x y : t) : bool := leb y x.
Definition ltb (x y : t) : bool := leb x y && negb (leb y x).
Definition gtb (x y : t) : bool := ltb y x.
Definition eqb (x y : t) : bool := leb x y && leb y x.

Definition sgn (x : t) : Z :=
  match x with
  | NaN => 0
  | NegInf => -1
  | PosInf => 1
  | Fin q => Z.sgn (Qnum q)
  end.

Definition of_sign (s : Z) : t :=
  match s with
  | Z0 => NaN
  | Zpos _ => PosInf
  | Zneg _ => NegInf
  end.

Definition add (x y : t) : t :=
  match x, y with
  | NaN, _ | _, NaN => NaN
  | Fin a, Fin b => Fin (Qred (a + b))
  | PosInf, NegInf | NegInf, PosInf => NaN
  | PosInf, _ | _, PosInf => PosInf
  | NegInf, _ | _, NegInf => NegInf
  end.

Definition opp (x : t) : t :=
  match x with
  | NaN => NaN
  | NegInf => PosInf
  | PosInf => NegInf
  | Fin a => Fin (Qred (- a))
  end.

Definition sub (x y : t) : t := add x (opp y).

Definition mul (x y : t) : t :=
  match x, y with
  | NaN, _ | _, NaN => NaN
  | Fin a, Fin b => Fin (Qred (a * b))
  | _, _ => of_sign (sgn x * sgn y)
  end.

(** Float division does not raise: a non-zero finite value divided by
    zero is an infinity, and [0 / 0] is [NaN]. *)
Definition div (x y : t) : t :=
  match x, y with
  | NaN, _ | _, NaN => NaN
  | Fin a, Fin b =>
      if Qeq_bool b 0 then of_sign (sgn x) else Fin (Qred (a / b))
  | Fin _, _ => Fin 0
  | _, Fin b => of_sign (sgn x * (if Qnum b <? 0 then -1 else 1))
  | _, _ => NaN
  end.

Definition of_Z (z : Z) : t := Fin (inject_Z z).

(** [Series.clip(lower, upper)]: [NaN] is left as it is. *)
Definition clip (lower upper x : t) : t :=
  if isna x then x
  else if ltb x lower then lower
  else if ltb upper x then upper
  else x.

(** [Series.dropna()] *)
Definition dropna (s : list t) : list t := filter notna s.

(** [Series.notna().any()] *)
Definition any_notna (s : list t) : bool := existsb notna s.

(** The groupby [mean] kernel: one pass that skips [NaN], counting the
    observations [nobs] and accumulating their sum; a group without
    observations has mean [NaN]. *)
Definition mean_step (acc : Z * t) (v : t) : Z * t :=
  if isna v then acc else (fst acc + 1, add (snd acc) v).

Definition mean (s : list t) : t :=
  let '(nobs, sumx) := fold_left mean_step s (0, Fin 0) in
  if nobs =? 0 then NaN else div sumx (of_Z nobs).

(** The groupby [max] kernel: one pass that skips [NaN] and keeps the
    running maximum; a group without observations has maximum [NaN]. *)
Definition max_step (acc : Z * t) (v : t) : Z * t :=
  if isna v then acc
  else (fst acc + 1, if gtb v (snd acc) then v else snd acc).

Definition max (s : list t) : t :=
  let '(nobs, maxx) := fold_left max_step s (0, NegInf) in
  if nobs =? 0 then NaN else maxx.

(** numpy's linear interpolation between two neighbouring order
    statistics [a] and [b] at fraction [g]. *)
Definition lerp (a b g : t) : t :=
  let diff_b_a := sub b a in
  if geb g (Fin (1 # 2)) then sub b (mul diff_b_a (sub (Fin 1) g))
  else add a (mul diff_b_a g).

Inductive exn : Type := IndexError.

(** [np.percentile(a, q)] with the default method ("linear").  The
    virtual index is [(n - 1) * q / 100]; the two neighbouring order
    statistics are interpolated.  An empty array has no order statistic:
    indexing it raises.  An array holding a [NaN] has percentile [NaN]. *)
Definition percentile (a : list t) (q : Q) : result exn t :=
  let n := Z.of_nat (List.length a) in
  if n =? 0 then Err IndexError
  else if existsb isna a then Ok NaN
  else
    let arr := sort leb a in
    let virtual_index := (inject_Z (n - 1) * (q / 100))%Q in
    let previous_index := Qfloor virtual_index in
    let next_index := Z.min (previous_index + 1) (n - 1) in
    let gamma := Qred (virtual_index - inject_Z previous_index) in
    Ok (lerp (nth (Z.to_nat previous_index) arr NaN)
             (nth (Z.to_nat next_index) arr NaN)
             (Fin gamma)).

(** Position in a descending sort with [na_position="last"]: [x] may
    stand before [y] when [y] is [NaN], or when neither is and
    [y <= x]. *)
Definition desc_leb (x y : t) : bool :=
  match x, y with
  | _, NaN => true
  | NaN, _ => false
  | _, _ => leb y x
  end.

End Num.

(** ** Ordered keys and [groupby]

    [DataFrame.groupby(keys)] with its defaults ([sort=True],
    [dropna=True]): rows with a missing key cell belong to no group, the
    groups are the distinct keys in ascending order, and each group keeps
    its rows in input order. *)

Definition lex_compare {A B : Type}
    (ca : A -> A -> comparison) (cb : B -> B -> comparison)
    (x y : A * B) : comparison :=
  match ca (fst x) (fst y) with
  | Eq => cb (snd x) (snd y)
  | c => c
  end.

Definition is_eq (c : comparison) : bool :=
  match c with Eq => true | _ => false end.

Section GroupBy.
Variables K R : Type.
Variable cmp : K -> K -> comparison.
Variable key_of : R -> option K.

(** Insertion into an ascending list without repetition. *)
Fixpoint insert_key (k : K) (l : list K) : list K :=
  match l with
  | [] => [k]
  | k' :: l' =>
      match cmp k k' with
      | Lt => k :: l
      | Eq => l
      | Gt => k' :: insert_key k l'
      end
  end.

Definition add_key (r : R) (acc : list K) : list K :=
  match key_of r with
  | Some k => insert_key k acc
  | None => acc
  end.

Definition group_keys (rows : list R) : list K :=
  fold_right add_key [] rows.

Definition in_group (k : K) (r : R) : bool :=
  match key_of r with
  | Some k' => is_eq (cmp k k')
  | None => false
  end.

Definition group_rows (k : K) (rows : list R) : list R :=
  filter (in_group k) rows.

Definition groupby (rows : list R) : list (K * list R) :=
  map (fun k => (k, group_rows k rows)) (group_keys rows).
End GroupBy.

(** [sorted(list(s))] for a Python set [s] of strings given by a list of its
    elements: ascending, each element once. *)
Definition sorted_set (s : list string) : list string :=
  fold_right (insert_key String.compare) [] s.

(** ** The usage table *)

Definition cell : Type := option string.

(** The frame [pd.read_csv] returns: a header and rows of text cells; an
    empty cell is [None]. *)
Record raw_frame : Type := {
  columns : list string;
  data : list (list cell)
}.

Record usage_record : Type := {
  timestamp : option Z;
  region : option string;
  city : option string;
  site_id : option string;
  cell_id : option string;
  tech : option string;
  capacity_mbps : Num.t;
  throughput_mbps : Num.t;
  utilization_pct : Num.t;
  latency_ms : Num.t;
  packet_loss_pct : Num.t;
  users_active : Num.t
}.

Definition set_utilization_pct (r : usage_record) (u : Num.t) : usage_record :=
  {| timestamp := timestamp r; region := region r; city := city r;
     site_id := site_id r; cell_id := cell_id r; tech := tech r;
     capacity_mbps := capacity_mbps r; throughput_mbps := throughput_mbps r;
     utilization_pct := u;
     latency_ms := latency_ms r; packet_loss_pct := packet_loss_pct r;
     users_active := users_active r |}.

Definition REQUIRED_COLS : list string :=
  ["timestamp"; "region"; "city"; "site_id"; "cell_id"; "tech";
   "capacity_mbps"; "throughput_mbps"; "utilization_pct";
   "latency_ms"; "packet_loss_pct"; "users_active"]%string.

(** ** Record Validator / Normalizer ([app.py], lines 32-77) *)

Definition mem (s : string) (l : list string) : bool :=
  existsb (String.eqb s) l.

Definition aliases : list (string * list string) :=
  [("timestamp",
    ["timestamp"; "time"; "datetime"; "event_time"; "date_time"])]%string.

(** [df.rename(columns={a: canonical})] *)
Definition rename (a canonical : string) (cols : list string) : list string :=
  map (fun c => if String.eqb c a then canonical else c) cols.

(** The inner loop of [_apply_aliases]: the first alternative found among
    the columns is renamed, and the loop breaks. *)
Fixpoint rename_first (canonical : string) (alts cols : list string)
  : list string :=
  match alts with
  | [] => cols
  | a :: alts' =>
      if mem a cols then rename a canonical cols
      else rename_first canonical alts' cols
  end.

Definition apply_alias (cols : list string) (entry : string * list string)
  : list string :=
  let '(canonical, alts) := entry in
  if mem canonical cols then cols else rename_first canonical alts cols.

Definition _apply_aliases (df : raw_frame) : raw_frame :=
  {| columns := fold_left apply_alias aliases (columns df);
     data := data df |}.

Inductive load_error : Type :=
| SchemaError (missing expected : list string)
| TimestampError
| KeyError (column : string).

Fixpoint index_of (name : string) (cols : list string) : option nat :=
  match cols with
  | [] => None
  | c :: cols' =>
      if String.eqb c name then Some O
      else option_map S (index_of name cols')
  end.

(** [df[name]]: the position of the column, or [KeyError]. *)
Definition column (df : raw_frame) (name : string) : result load_error nat :=
  match index_of name (columns df) with
  | Some i => Ok i
  | None => Err (KeyError name)
  end.

Definition at_column (i : nat) (row : list cell) : cell := nth i row None.

(** A column the loader does not touch, read by name for the typed record;
    a column that is not there reads as missing. *)
Definition untouched (df : raw_frame) (name : string) (row : list cell) : cell :=
  match index_of name (columns df) with
  | Some i => at_column i row
  | None => None
  end.

Definition is_none {A : Type} (o : option A) : bool :=
  match o with None => true | Some _ => false end.

(** Lines 70-77.  [calc] is computed for every row with float arithmetic
    and clipped to [0, 100]; it is stored only where [utilization_pct] was
    [NaN]. *)
Definition calc (r : usage_record) : Num.t :=
  Num.mul (Num.div (throughput_mbps r) (capacity_mbps r)) (Num.of_Z 100).

Definition backfill_row (r : usage_record) : usage_record :=
  if Num.isna (utilization_pct r)
  then set_utilization_pct r (Num.clip (Num.of_Z 0) (Num.of_Z 100) (calc r))
  else r.

Definition backfill (df : list usage_record) : list usage_record :=
  let need_util := map (fun r => Num.isna (utilization_pct r)) df in
  if existsb (fun b => b) need_util then map backfill_row df else df.

Section Loader.
(** [pd.to_datetime] and [pd.to_numeric] on one text value, both with
    [errors="coerce"]: a value that does not parse becomes [NaT] / [NaN]. *)
Variable parse_datetime : string -> option Z.
Variable parse_numeric : string -> Num.t.

Definition to_datetime (c : cell) : option Z :=
  match c with
  | Some s => parse_datetime s
  | None => None
  end.

Definition to_numeric (c : cell) : Num.t :=
  match c with
  | Some s => parse_numeric s
  | None => Num.NaN
  end.

Definition read_network_csv (csv : raw_frame) (required_cols : list string)
  : result load_error (list usage_record) :=
  let df := _apply_aliases csv in
  let missing := filter (fun c => negb (mem c (columns df))) required_cols in
  match missing with
  | _ :: _ => Err (SchemaError (sorted_set missing) (sorted_set required_cols))
  | [] =>
      ts <- column df "timestamp" ;;
      if forallb (fun row => is_none (to_datetime (at_column ts row))) (data df)
      then Err TimestampError
      else
        cap <- column df "capacity_mbps" ;;
        thr <- column df "throughput_mbps" ;;
        util <- column df "utilization_pct" ;;
        lat <- column df "latency_ms" ;;
        loss <- column df "packet_loss_pct" ;;
        users <- column df "users_active" ;;
        let records :=
          map (fun row =>
                 {| timestamp := to_datetime (at_column ts row);
                    region := untouched df "region" row;
                    city := untouched df "city" row;
                    site_id := untouched df "site_id" row;
                    cell_id := untouched df "cell_id" row;
                    tech := untouched df "tech" row;
                    capacity_mbps := to_numeric (at_column cap row);
                    throughput_mbps := to_numeric (at_column thr row);
                    utilization_pct := to_numeric (at_column util row);
                    latency_ms := to_numeric (at_column lat row);
                    packet_loss_pct := to_numeric (at_column loss row);
                    users_active := to_numeric (at_column users row) |})
              (data df) in
        if mem "utilization_pct" (columns df)
        then Ok (backfill records)
        else Ok records
  end.
End Loader.

(** The database path computes the same column in SQL
    ([src/db_connection.py], lines 36-39):
    [CASE WHEN capacity_mbps > 0 THEN throughput_mbps * 100.0 / capacity_mbps
     ELSE NULL END]. *)
Definition fetch_sample_usage_utilization (capacity throughput : Num.t) : Num.t :=
  if Num.gtb capacity (Num.of_Z 0)
  then Num.div (Num.mul throughput (Num.of_Z 100)) capacity
  else Num.NaN.

(** [df.dropna(subset=["timestamp"])] ([app.py], line 138) *)
Definition dropna_timestamp (df : list usage_record) : list usage_record :=
  filter (fun r => negb (is_none (timestamp r))) df.

(** ** Filter / Query layer ([app.py], lines 166-177) *)

Definition NS_PER_SECOND : Z := 1000000000.
Definition NS_PER_HOUR : Z := 3600 * NS_PER_SECOND.
Definition NS_PER_DAY : Z := 86400 * NS_PER_SECOND.

(** Day number of a proleptic Gregorian date, counted from 1970-01-01. *)
Definition days_from_civil (y m d : Z) : Z :=
  let y' := if m <=? 2 then y - 1 else y in
  let era := y' / 400 in
  let yoe := y' - era * 400 in
  let doy := (153 * (if m >? 2 then m - 3 else m + 9) + 2) / 5 + d - 1 in
  let doe := yoe * 365 + yoe / 4 - yoe / 100 + doy in
  era * 146097 + doe - 719468.

(** [pd.to_datetime(d)] for a date [d]: midnight at the start of that day. *)
Definition date_to_datetime (d : Z) : Z := d * NS_PER_DAY.

Record filter_spec : Type := {
  date_range : Z * Z;
  techs : list string;
  regions : list string;
  cities : list string;
  sites : list string
}.

Definition start_date (f : filter_spec) : Z :=
  date_to_datetime (fst (date_range f)).

Definition end_date (f : filter_spec) : Z :=
  date_to_datetime (snd (date_range f)) + NS_PER_DAY - NS_PER_SECOND.

(** Comparisons of a timestamp cell with a bound; [NaT] compares false. *)
Definition ts_ge (t : option Z) (bound : Z) : bool :=
  match t with Some x => bound <=? x | None => false end.

Definition ts_le (t : option Z) (bound : Z) : bool :=
  match t with Some x => x <=? bound | None => false end.

(** [Series.isin(values)] on one cell. *)
Definition isin (c : option string) (values : list string) : bool :=
  match c with
  | Some s => mem s values
  | None => false
  end.

(** Truth value of a Python list: the empty list is false. *)
Definition truthy {A : Type} (l : list A) : bool :=
  match l with [] => false | _ :: _ => true end.

Definition mask (f : filter_spec) (r : usage_record) : bool :=
  let m := ts_ge (timestamp r) (start_date f)
           && ts_le (timestamp r) (end_date f) in
  let m := if truthy (techs f) then m && isin (tech r) (techs f) else m in
  let m := if truthy (regions f) then m && isin (region r) (regions f) else m in
  let m := if truthy (cities f) then m && isin (city r) (cities f) else m in
  let m := if truthy (sites f) then m && isin (site_id r) (sites f) else m in
  m.

(** [df.loc[mask].copy()] *)
Definition apply_filters (f : filter_spec) (df : list usage_record)
  : list usage_record :=
  filter (mask f) df.

(** ** Aggregation engine ([src/analyze_network.py]) *)

(** The table handed to [compute_aggregations] either lacks the [hour]
    column (line 7 then derives it) or already carries one, as the table
    the dashboard passes does ([app.py], line 212). *)
Inductive frame : Type :=
| Plain (rows : list usage_record)
| WithHour (rows : list (usage_record * option Z)).

(** A row of the working copy: the record with its [date] and [hour]. *)
Record arow : Type := {
  rec : usage_record;
  date : option Z;
  hour : option Z
}.

(** [Series.dt.hour] and [Series.dt.date] on one cell. *)
Definition dt_hour (ts : option Z) : option Z :=
  option_map (fun t => (t / NS_PER_HOUR) mod 24) ts.

Definition dt_date (ts : option Z) : option Z :=
  option_map (fun t => t / NS_PER_DAY) ts.

(** Lines 5-8 *)
Definition working (df : frame) : list arow :=
  match df with
  | Plain rows =>
      map (fun r => {| rec := r;
                       date := dt_date (timestamp r);
                       hour := dt_hour (timestamp r) |}) rows
  | WithHour rows =>
      map (fun rh => {| rec := fst rh;
                        date := dt_date (timestamp (fst rh));
                        hour := snd rh |}) rows
  end.

Record site_hour_row : Type := {
  sh_site_id : string;
  sh_hour : Z;
  sh_avg_util : Num.t;
  sh_p95_util : Num.t;
  sh_avg_latency : Num.t;
  sh_users : Num.t
}.

Record site_day_row : Type := {
  sd_site_id : string;
  sd_date : Z;
  sd_avg_util : Num.t;
  sd_peak_util : Num.t;
  sd_avg_latency : Num.t;
  sd_users : Num.t
}.

Record busy_hour_row : Type := {
  bh_site_id : string;
  bh_hour : Z;
  hour_avg_util : Num.t
}.

Record congested_row : Type := {
  cc_timestamp : option Z;
  cc_region : option string;
  cc_city : option string;
  cc_site_id : option string;
  cc_cell_id : option string;
  cc_tech : option string;
  cc_utilization_pct : Num.t;
  cc_latency_ms : Num.t
}.

Record hour_of_day_row : Type := {
  hd_hour : Z;
  hd_tech : string;
  hd_utilization_pct : Num.t
}.

Record aggregations : Type := {
  site_hour : list site_hour_row;
  site_day : list site_day_row;
  busy_hour : list busy_hour_row;
  congested_cells : list congested_row;
  hour_of_day : list hour_of_day_row
}.

(** Group keys *)
Definition pair_key {A B : Type} (a : option A) (b : option B) : option (A * B) :=
  match a, b with
  | Some x, Some y => Some (x, y)
  | _, _ => None
  end.

Definition site_hour_key (r : arow) : option (string * Z) :=
  pair_key (site_id (rec r)) (hour r).

Definition site_day_key (r : arow) : option (string * Z) :=
  pair_key (site_id (rec r)) (date r).

Definition hour_tech_key (r : arow) : option (Z * string) :=
  pair_key (hour r) (tech (rec r)).

Definition site_Z_compare : string * Z -> string * Z -> comparison :=
  lex_compare String.compare Z.compare.

Definition Z_string_compare : Z * string -> Z * string -> comparison :=
  lex_compare Z.compare String.compare.

Definition col (f : usage_record -> Num.t) (g : list arow) : list Num.t :=
  map (fun r => f (rec r)) g.

(** Line 12: [lambda s: np.percentile(s.dropna(), 95) if s.notna().any()
    else np.nan] *)
Definition p95 (s : list Num.t) : result Num.exn Num.t :=
  if Num.any_notna s then Num.percentile (Num.dropna s) 95 else Ok Num.NaN.

(** Lines 10-15 *)
Definition site_hour_agg (kg : (string * Z) * list arow)
  : result Num.exn site_hour_row :=
  let '(k, g) := kg in
  p <- p95 (col utilization_pct g) ;;
  Ok {| sh_site_id := fst k;
        sh_hour := snd k;
        sh_avg_util := Num.mean (col utilization_pct g);
        sh_p95_util := p;
        sh_avg_latency := Num.mean (col latency_ms g);
        sh_users := Num.mean (col users_active g) |}.

(** Lines 17-22 *)
Definition site_day_agg (kg : (string * Z) * list arow) : site_day_row :=
  let '(k, g) := kg in
  {| sd_site_id := fst k;
     sd_date := snd k;
     sd_avg_util := Num.mean (col utilization_pct g);
     sd_peak_util := Num.max (col utilization_pct g);
     sd_avg_latency := Num.mean (col latency_ms g);
     sd_users := Num.mean (col users_active g) |}.

(** Lines 25-27 *)
Definition hour_avg (kg : (string * Z) * list arow) : busy_hour_row :=
  let '(k, g) := kg in
  {| bh_site_id := fst k;
     bh_hour := snd k;
     hour_avg_util := Num.mean (col utilization_pct g) |}.

(** Line 28: [sort_values(["site_id","hour_avg_util"],
    ascending=[True, False])]. *)
Definition busy_order (a b : busy_hour_row) : bool :=
  match String.compare (bh_site_id a) (bh_site_id b) with
  | Lt => true
  | Gt => false
  | Eq => Num.desc_leb (hour_avg_util a) (hour_avg_util b)
  end.

(** Line 29: [groupby("site_id").head(1)] keeps, in the order of the table,
    the rows that are the first of their site. *)
Fixpoint head1 (seen : list string) (l : list busy_hour_row)
  : list busy_hour_row :=
  match l with
  | [] => []
  | r :: l' =>
      if mem (bh_site_id r) seen then head1 seen l'
      else r :: head1 (bh_site_id r :: seen) l'
  end.

(** Line 32: [sort_values(["utilization_pct","latency_ms"],
    ascending=[False, False])]. *)
Definition congested_order (a b : arow) : bool :=
  let ua := utilization_pct (rec a) in
  let ub := utilization_pct (rec b) in
  if Num.desc_leb ua ub
  then if Num.desc_leb ub ua
       then Num.desc_leb (latency_ms (rec a)) (latency_ms (rec b))
       else true
  else false.

(** Line 33: the projection [.loc[:, [...]]]. *)
Definition project (r : arow) : congested_row :=
  {| cc_timestamp := timestamp (rec r);
     cc_region := region (rec r);
     cc_city := city (rec r);
     cc_site_id := site_id (rec r);
     cc_cell_id := cell_id (rec r);
     cc_tech := tech (rec r);
     cc_utilization_pct := utilization_pct (rec r);
     cc_latency_ms := latency_ms (rec r) |}.

Definition is_congested (r : arow) : bool :=
  Num.geb (utilization_pct (rec r)) (Num.of_Z 80).

(** Line 35 *)
Definition hour_tech_avg (kg : (Z * string) * list arow) : hour_of_day_row :=
  let '(k, g) := kg in
  {| hd_hour := fst k;
     hd_tech := snd k;
     hd_utilization_pct := Num.mean (col utilization_pct g) |}.

Definition compute_aggregations (input : frame)
  : result Num.exn aggregations :=
  let df := working input in
  site_hour <- mapM site_hour_agg (groupby site_Z_compare site_hour_key df) ;;
  let site_day := map site_day_agg (groupby site_Z_compare site_day_key df) in
  let tmp := map hour_avg (groupby site_Z_compare site_hour_key df) in
  let busy_hour := head1 [] (sort busy_order tmp) in
  let congested_cells :=
    map project (sort congested_order (filter is_congested df)) in
  let hour_of_day :=
    map hour_tech_avg (groupby Z_string_compare hour_tech_key df) in
  Ok {| site_hour := site_hour;
        site_day := site_day;
        busy_hour := busy_hour;
        congested_cells := congested_cells;
        hour_of_day := hour_of_day |}.

(** ** Sample data *)

Definition sample (ts : Z) (site : option string) (util lat : Num.t)
  : usage_record :=
  {| timestamp := Some ts;
     region := Some "North"%string; city := Some "Pune"%string;
     site_id := site; cell_id := Some "C1"%string; tech := Some "5G"%string;
     capacity_mbps := Num.of_Z 100; throughput_mbps := Num.NaN;
     utilization_pct := util; latency_ms := lat;
     packet_loss_pct := Num.NaN; users_active := Num.NaN |}.

Definition at_time (y m d hh mm ss : Z) : Z :=
  date_to_datetime (days_from_civil y m d)
  + (hh * 3600 + mm * 60 + ss) * NS_PER_SECOND.

Definition S1_table : frame :=
  Plain [ sample (at_time 2025 1 1 10 0 0) (Some "S1"%string) (Num.of_Z 40) Num.NaN;
          sample (at_time 2025 1 1 10 30 0) (Some "S1"%string) (Num.of_Z 60) Num.NaN;
          sample (at_time 2025 1 1 11 0 0) (Some "S1"%string) (Num.of_Z 90) Num.NaN ].

(** A row stamped half a second before midnight, and the one-day range of
    its calendar day. *)
Definition late_row : usage_record :=
  sample (at_time 2025 1 1 23 59 59 + 500000000) (Some "S1"%string)
         (Num.of_Z 40) Num.NaN.

Definition new_year_day : filter_spec :=
  {| date_range := (days_from_civil 2025 1 1, days_from_civil 2025 1 1);
     techs := []; regions := []; cities := []; sites := [] |}.

(** ** The filter specification in the words of the design *)

(** A categorical predicate: an unset (empty) selection passes every row; a
    selection keeps the rows whose value is one of its members. *)
Definition passes (selection : list string) (c : option string) : Prop :=
  selection = [] \/ exists s, c = Some s /\ In s selection.

(** The row is stamped on a calendar day of the range, both ends included. *)
Definition on_a_day_of (f : filter_spec) (r : usage_record) : Prop :=
  exists t, timestamp r = Some t
            /\ fst (date_range f) <= t / NS_PER_DAY <= snd (date_range f).

(** The row is stamped between midnight opening the first day and
    23:59:59 of the last day. *)
Definition within_range (f : filter_spec) (r : usage_record) : Prop :=
  exists t, timestamp r = Some t
            /\ date_to_datetime (fst (date_range f)) <= t
            /\ t <= date_to_datetime (snd (date_range f))
                    + 86399 * NS_PER_SECOND.

Definition categorical (f : filter_spec) (r : usage_record) : Prop :=
  passes (techs f) (tech r) /\ passes (regions f) (region r)
  /\ passes (cities f) (city r) /\ passes (sites f) (site_id r).

(** The four categorical dimensions of the filter. *)
Inductive dimension : Type := Tech | Region | City | Site.

Definition selection (d : dimension) (f : filter_spec) : list string :=
  match d with
  | Tech => techs f
  | Region => regions f
  | City => cities f
  | Site => sites f
  end.

Definition value (d : dimension) (r : usage_record) : option string :=
  match d with
  | Tech => tech r
  | Region => region r
  | City => city r
  | Site => site_id r
  end.

(** A row without a technology, and a filter that selects one. *)
Definition no_tech_row : usage_record :=
  {| timestamp := Some (at_time 2025 1 1 10 0 0);
     region := Some "North"%string; city := Some "Pune"%string;
     site_id := Some "S1"%string; cell_id := Some "C1"%string; tech := None;
     capacity_mbps := Num.of_Z 100; throughput_mbps := Num.of_Z 50;
     utilization_pct := Num.of_Z 50; latency_ms := Num.of_Z 20;
     packet_loss_pct := Num.of_Z 0; users_active := Num.of_Z 10 |}.

Definition only_5G : filter_spec :=
  {| date_range := (days_from_civil 2025 1 1, days_from_civil 2025 1 1);
     techs := ["5G"%string]; regions := []; cities := []; sites := [] |}.

(** ** Orders on keys *)

(** What the key comparisons have to satisfy: [cmp] decides a strict total
    order. *)
Class CmpOK {K : Type} (cmp : K -> K -> comparison) : Prop := {
  cmp_eq : forall a b, cmp a b = Eq -> a = b;
  cmp_refl : forall a, cmp a a = Eq;
  cmp_antisym : forall a b, cmp a b = CompOpp (cmp b a);
  cmp_trans : forall a b c, cmp a b = Lt -> cmp b c = Lt -> cmp a c = Lt
}.

(** A list in strictly ascending order. *)
Definition ascending {K : Type} (cmp : K -> K -> comparison) (l : list K) : Prop :=
  StronglySorted (fun a b => cmp a b = Lt) l.

(** The key cells that are present, in row order. *)
Definition present_keys {K R : Type} (key_of : R -> option K) (rows : list R)
  : list K :=
  flat_map (fun r => match key_of r with Some k => [k] | None => [] end) rows.

(** ** Alias resolution in the words of the design

    The candidate names are tried in order; the first one found among the
    columns becomes [timestamp]. *)
Definition resolve_timestamp (cols : list string) : list string :=
  match find (fun a => mem a cols)
             ["timestamp"; "time"; "datetime"; "event_time"; "date_time"]%string
  with
  | Some a => rename a "timestamp" cols
  | None => cols
  end.

(** The required header without [cell_id]. *)
Definition header_without_cell_id : list string :=
  ["timestamp"; "region"; "city"; "site_id"; "tech";
   "capacity_mbps"; "throughput_mbps"; "utilization_pct";
   "latency_ms"; "packet_loss_pct"; "users_active"]%string.

(** Stand-ins for the pandas parsers in the examples below: a run of
    decimal digits is read as a number (of seconds since the epoch, for a
    timestamp); any other text does not parse. *)
Definition digit_of (c : ascii) : option Z :=
  let n := Z.of_N (N_of_ascii c) in
  if (48 <=? n) && (n <=? 57) then Some (n - 48) else None.

Fixpoint digits (acc : Z) (s : string) : option Z :=
  match s with
  | EmptyString => Some acc
  | String c s' =>
      match digit_of c with
      | Some d => digits (10 * acc + d) s'
      | None => None
      end
  end.

Definition parse_digits (s : string) : option Z :=
  match s with
  | EmptyString => None
  | _ => digits 0 s
  end.

Definition demo_datetime (s : string) : option Z :=
  option_map (fun n => n * NS_PER_SECOND) (parse_digits s).

Definition demo_numeric (s : string) : Num.t :=
  match parse_digits s with
  | Some n => Num.of_Z n
  | None => Num.NaN
  end.

(** A feed that names its timestamp column [time]; the second row's
    timestamp does not parse. *)
Definition demo_csv : raw_frame :=
  {| columns :=
       ["time"; "region"; "city"; "site_id"; "cell_id"; "tech";
        "capacity_mbps"; "throughput_mbps"; "utilization_pct";
        "latency_ms"; "packet_loss_pct"; "users_active"]%string;
     data :=
       [ [Some "1735725600"; Some "North"; Some "Pune"; Some "S1"; Some "C1";
          Some "5G"; Some "100"; Some "50"; None; Some "20"; Some "0";
          Some "10"];
         [Some "yesterday"; Some "North"; Some "Pune"; Some "S1"; Some "C2";
          Some "5G"; Some "100"; Some "70"; Some "70"; Some "25"; Some "0";
          Some "12"] ]%string |}.

(** One reading of a cell with 50 Mbps of traffic, a capacity of zero and
    no utilization. *)
Definition zero_capacity_csv : raw_frame :=
  {| columns := REQUIRED_COLS;
     data :=
       [ [Some "1735725600"; Some "North"; Some "Pune"; Some "S1"; Some "C1";
          Some "5G"; Some "0"; Some "50"; None; Some "20"; Some "0";
          Some "10"] ]%string |}.

Definition zero_capacity_record : usage_record :=
  {| timestamp := Some (1735725600 * NS_PER_SECOND);
     region := Some "North"%string; city := Some "Pune"%string;
     site_id := Some "S1"%string; cell_id := Some "C1"%string;
     tech := Some "5G"%string;
     capacity_mbps := Num.of_Z 0; throughput_mbps := Num.of_Z 50;
     utilization_pct := Num.NaN; latency_ms := Num.of_Z 20;
     packet_loss_pct := Num.of_Z 0; users_active := Num.of_Z 10 |}.

(** ** The aggregation tables in the words of the design *)

(** The records of the table handed to the engine. *)
Definition records (df : frame) : list usage_record :=
  match df with
  | Plain rows => rows
  | WithHour rows => map fst rows
  end.

(** The eight columns of a congestion row. *)
Definition project_record (r : usage_record) : congested_row :=
  {| cc_timestamp := timestamp r;
     cc_region := region r;
     cc_city := city r;
     cc_site_id := site_id r;
     cc_cell_id := cell_id r;
     cc_tech := tech r;
     cc_utilization_pct := utilization_pct r;
     cc_latency_ms := latency_ms r |}.

(** [a] may stand before [b] in an order that is non-increasing on
    (utilization, latency): the utilization of [a] is greater, or the two
    are equal and the latency of [a] is at least that of [b]; a missing
    latency stands after every latency of the same utilization. *)
Definition not_below (a b : congested_row) : Prop :=
  Num.gtb (cc_utilization_pct a) (cc_utilization_pct b) = true
  \/ (Num.eqb (cc_utilization_pct a) (cc_utilization_pct b) = true
      /\ (Num.isna (cc_latency_ms b) = true
          \/ Num.geb (cc_latency_ms a) (cc_latency_ms b) = true)).

(** A total preorder decided by a boolean function. *)
Class PreorderOK {A : Type} (leb : A -> A -> bool) : Prop := {
  leb_total : forall a b, leb a b = true \/ leb b a = true;
  leb_trans : forall a b c, leb a b = true -> leb b c = true -> leb a c = true
}.

(** The order a stable sort produces on a list that was in the order
    [tie] before: [leb] decides, and [tie] decides among equals. *)
Definition refined {A : Type} (leb : A -> A -> bool) (tie : A -> A -> Prop)
    (a b : A) : Prop :=
  leb a b = true /\ (leb b a = true -> tie a b).

(** Rows of the sample site above and below the congestion threshold. *)
Definition congestion_table : frame :=
  Plain [ sample (at_time 2025 1 1 10 0 0) (Some "S1"%string) (Num.of_Z 85) Num.NaN;
          sample (at_time 2025 1 1 11 0 0) (Some "S1"%string) (Num.of_Z 79) (Num.of_Z 30);
          sample (at_time 2025 1 1 12 0 0) (Some "S2"%string) (Num.of_Z 85) (Num.of_Z 40);
          sample (at_time 2025 1 1 13 0 0) (Some "S2"%string) (Num.of_Z 97) (Num.of_Z 10);
          sample (at_time 2025 1 1 14 0 0) (Some "S2"%string) (Num.of_Z 80) (Num.of_Z 10) ].

(** ** Counting distinct keys *)

Definition key_eq_dec : forall x y : string * Z, {x = y} + {x <> y}.
Proof. decide equality; [apply Z.eq_dec | apply string_dec]. Defined.

Definition cells_eq_dec :
  forall x y : option string * option Z, {x = y} + {x <> y}.
Proof.
  decide equality; decide equality; [apply Z.eq_dec | apply string_dec].
Defined.

Definition distinct {A : Type} (dec : forall x y : A, {x = y} + {x <> y})
    (l : list A) : nat :=
  List.length (nodup dec l).

(** The (site_id, hour) and (site_id, date) cells of the rows, missing
    cells included. *)
Definition site_hour_cells (df : list arow) : list (option string * option Z) :=
  map (fun r => (site_id (rec r), hour r)) df.

Definition site_day_cells (df : list arow) : list (option string * option Z) :=
  map (fun r => (site_id (rec r), date r)) df.

(** Two readings of one hour, the second without a site. *)
Definition unnamed_site_table : frame :=
  Plain [ sample (at_time 2025 1 1 10 0 0) (Some "S1"%string) (Num.of_Z 40) Num.NaN;
          sample (at_time 2025 1 1 10 30 0) None (Num.of_Z 60) Num.NaN ].

(** ** Aggregates over the values that are present *)

Definition total (v : list Num.t) : Num.t := fold_left Num.add v (Num.Fin 0).

(** The mean of the values that are present; missing when there is none. *)
Definition mean_of_present (s : list Num.t) : Num.t :=
  match Num.dropna s with
  | [] => Num.NaN
  | v => Num.div (total v) (Num.of_Z (Z.of_nat (List.length v)))
  end.

(** [m] is a greatest element of [v]. *)
Definition is_max_of (m : Num.t) (v : list Num.t) : Prop :=
  In m v /\ forall x, In x v -> Num.leb x m = true.

(** Every value of the column is missing (also when there is no value). *)
Definition all_missing (s : list Num.t) : Prop :=
  forall v, In v s -> v = Num.NaN.

(** The group of a key. *)
Definition site_hour_group (df : list arow) (site : string) (h : Z) : list arow :=
  group_rows site_Z_compare site_hour_key (site, h) df.

Definition site_day_group (df : list arow) (site : string) (d : Z) : list arow :=
  group_rows site_Z_compare site_day_key (site, d) df.

(** ** The busy hour in the words of the design *)

(** The site has a reading in hour [h]: a row with that site and that
    hour, both present. *)
Definition site_has_hour (df : list arow) (site : string) (h : Z) : Prop :=
  exists r, In r df /\ site_id (rec r) = Some site /\ hour r = Some h.

(** Mean utilization of a site in an hour of day. *)
Definition hour_mean (df : list arow) (site : string) (h : Z) : Num.t :=
  Num.mean (col utilization_pct (site_hour_group df site h)).

(** The site cells of the rows, missing ones included. *)
Definition site_cells (df : list arow) : list (option string) :=
  map (fun r => site_id (rec r)) df.

Definition site_cell_eq_dec : forall x y : option string, {x = y} + {x <> y}.
Proof. decide equality; apply string_dec. Defined.

(** The order of [tmp]: ascending on (site_id, hour). *)
Definition key_before (a b : busy_hour_row) : Prop :=
  site_Z_compare (bh_site_id a, bh_hour a) (bh_site_id b, bh_hour b) = Lt.

(** ** The dashboard around the engine ([app.py], lines 133-226) *)

(** [df["timestamp"].min()] and [.max()]: the least and the greatest of the
    timestamps that are present; [NaT] when there is none. *)
Definition ts_step (pick : Z -> Z -> Z) (acc : option Z) (r : usage_record)
  : option Z :=
  match timestamp r, acc with
  | Some t, Some m => Some (pick m t)
  | Some t, None => Some t
  | None, _ => acc
  end.

Definition ts_fold (pick : Z -> Z -> Z) (df : list usage_record) : option Z :=
  fold_left (ts_step pick) df None.

Definition ts_min : list usage_record -> option Z := ts_fold Z.min.
Definition ts_max : list usage_record -> option Z := ts_fold Z.max.

(** Lines 150-163: the filters as the sidebar shows them before the user
    touches them: the date range runs from the day of the earliest
    timestamp to the day of the latest, and nothing is selected in the
    four multiselects. *)
Definition default_filters (df : list usage_record) : option filter_spec :=
  match ts_min df, ts_max df with
  | Some lo, Some hi =>
      Some {| date_range := (lo / NS_PER_DAY, hi / NS_PER_DAY);
              techs := []; regions := []; cities := []; sites := [] |}
  | _, _ => None
  end.

(** The choices a multiselect offers:
    [sorted(df[column].dropna().unique())]. *)
Definition options (d : dimension) (df : list usage_record) : list string :=
  sorted_set (present_keys (value d) df).

(** Line 212 adds the [hour] column; this is the table the dashboard hands
    to [compute_aggregations] (line 230). *)
Definition with_hour (df_f : list usage_record) : list (usage_record * option Z) :=
  map (fun r => (r, dt_hour (timestamp r))) df_f.

Definition dashboard_frame (df_f : list usage_record) : frame :=
  WithHour (with_hour df_f).

(** Line 222: [(hour >= 19) & (hour <= 23)]; a missing hour compares
    false. *)
Definition in_prime_time (h : option Z) : bool :=
  match h with
  | Some x => (19 <=? x) && (x <=? 23)
  | None => false
  end.

(** Line 225: the sort of the view, on the projected rows. *)
Definition view_order (a b : congested_row) : bool :=
  let ua := cc_utilization_pct a in
  let ub := cc_utilization_pct b in
  if Num.desc_leb ua ub
  then if Num.desc_leb ub ua
       then Num.desc_leb (cc_latency_ms a) (cc_latency_ms b)
       else true
  else false.

(** Lines 222-225: the prime-time congestion view for the threshold of
    the slider. *)
Definition congested_view (util_threshold : Z) (df_f : list usage_record)
  : list congested_row :=
  let prime := filter (fun rh => in_prime_time (snd rh)) (with_hour df_f) in
  let congested :=
    filter (fun rh => Num.geb (utilization_pct (fst rh)) (Num.of_Z util_threshold))
           prime in
  sort view_order (map (fun rh => project_record (fst rh)) congested).

(** ** Database collaborator ([src/db_connection.py], lines 5-17) *)

(** [os.getenv(name, default)] over an environment. *)
Definition getenv (env : string -> option string) (name default : string) : string :=
  match env name with
  | Some v => v
  | None => default
  end.

(** [s.startswith(p)] *)
Fixpoint startswith (s p : string) : bool :=
  match p with
  | EmptyString => true
  | String c p' =>
      match s with
      | EmptyString => false
      | String d s' => Ascii.eqb c d && startswith s' p'
      end
  end.

Inductive dsn_error : Type := ValueError (message : string).

Definition _dsn_from_env (env : string -> option string) : result dsn_error string :=
  let dialect := getenv env "DB_DIALECT" "postgresql" in
  let host := getenv env "DB_HOST" "localhost" in
  let port := getenv env "DB_PORT" "5432" in
  let name := getenv env "DB_NAME" "telecom" in
  let user := getenv env "DB_USER" "user" in
  let pw := getenv env "DB_PASS" "pass" in
  let target := (user ++ ":" ++ pw ++ "@" ++ host ++ ":" ++ port ++ "/" ++ name)%string in
  if startswith dialect "postgres"
  then Ok ("postgresql+psycopg2://" ++ target)%string
  else if startswith dialect "mysql"
  then Ok ("mysql+pymysql://" ++ target)%string
  else Err (ValueError ("Unsupported DB_DIALECT: " ++ dialect)%string).

(** ** Samples for the properties of the dashboard *)

Definition evening_table : list usage_record :=
  [ sample (at_time 2025 1 1 18 59 59) (Some "S1"%string) (Num.of_Z 99) (Num.of_Z 10);
    sample (at_time 2025 1 1 19 0 0) (Some "S1"%string) (Num.of_Z 85) Num.NaN;
    sample (at_time 2025 1 1 20 0 0) (Some "S2"%string) (Num.of_Z 85) (Num.of_Z 40);
    sample (at_time 2025 1 1 21 0 0) (Some "S2"%string) (Num.of_Z 60) (Num.of_Z 10);
    sample (at_time 2025 1 2 23 59 59) (Some "S2"%string) (Num.of_Z 97) (Num.of_Z 10) ].

(** A header without any timestamp column. *)
Definition no_timestamp_csv : raw_frame :=
  {| columns := ["region"; "site_id"; "utilization_pct"]%string;
     data := [ [Some "North"; Some "S1"; Some "50"] ]%string |}.

Definition mysql_env (name : string) : option string :=
  if String.eqb name "DB_DIALECT" then Some "mysql"%string
  else if String.eqb name "DB_PASS" then Some "s3cret"%string
  else None.

(** An infinite float cell. *)
Definition is_infinite (x : Num.t) : bool :=
  match x with
  | Num.PosInf | Num.NegInf => true
  | _ => false
  end.

(** The value lies in the closed interval from 0 to 100. *)
Definition is_percentage (x : Num.t) : Prop :=
  Num.leb (Num.of_Z 0) x = true /\ Num.leb x (Num.of_Z 100) = true.

(** A reading with a capacity and no throughput. *)
Definition no_throughput_record : usage_record :=
  {| timestamp := Some (at_time 2025 1 1 10 0 0);
     region := Some "North"%string; city := Some "Pune"%string;
     site_id := Some "S1"%string; cell_id := Some "C1"%string;
     tech := Some "5G"%string;
     capacity_mbps := Num.of_Z 100; throughput_mbps := Num.NaN;
     utilization_pct := Num.NaN; latency_ms := Num.of_Z 20;
     packet_loss_pct := Num.of_Z 0; users_active := Num.of_Z 10 |}.

(** The filters of the sidebar with every site of [evening_table]
    selected. *)
Definition all_sites_selected : filter_spec :=
  {| date_range := (days_from_civil 2025 1 1, days_from_civil 2025 1 2);
     techs := []; regions := []; cities := [];
     sites := options Site evening_table |}.

(** ** The hour-of-day table *)

Definition hour_tech_eq_dec : forall x y : Z * string, {x = y} + {x <> y}.
Proof. decide equality; [apply string_dec | apply Z.eq_dec]. Defined.

Definition hour_tech_group (df : list arow) (h : Z) (t : string) : list arow :=
  group_rows Z_string_compare hour_tech_key (h, t) df.

(** A table whose congested rows already stand in the order of the
    congestion table; the third and fourth row tie on both sort keys. *)
Definition presorted_table : frame :=
  Plain [ sample (at_time 2025 1 1 10 0 0) (Some "S1"%string) (Num.of_Z 97) (Num.of_Z 10);
          sample (at_time 2025 1 1 11 0 0) (Some "S1"%string) (Num.of_Z 50) (Num.of_Z 90);
          sample (at_time 2025 1 1 12 0 0) (Some "S2"%string) (Num.of_Z 85) (Num.of_Z 40);
          sample (at_time 2025 1 1 13 0 0) (Some "S3"%string) (Num.of_Z 85) (Num.of_Z 40);
          sample (at_time 2025 1 1 14 0 0) (Some "S2"%string) (Num.of_Z 85) Num.NaN ].

(** * Properties *)

(** ** Filter layer *)

Lemma mem_In (s : string) (l : list string) : mem s l = true <-> In s l.
Proof.
  unfold mem. rewrite existsb_exists. split.
  - intros [x [Hin Heq]]. apply String.eqb_eq in Heq. now subst.
  - intros Hin. exists s. split; [assumption | apply String.eqb_refl].
Qed.

Lemma dimension_passes (selection : list string) (c : option string) (m : bool) :
  (if truthy selection then m && isin c selection else m) = true
  <-> m = true /\ passes selection c.
Proof.
  unfold passes. destruct selection as [| v vs]; simpl truthy; cbv iota.
  - split; [intros H; split; [exact H | now left] | now intros [H _]].
  - rewrite andb_true_iff. split; intros [Hm H]; split; try exact Hm.
    + right. destruct c as [s |]; unfold isin in H; [| discriminate].
      exists s. split; [reflexivity | now apply mem_In].
    + destruct H as [H | [s [Hc Hin]]]; [discriminate |].
      subst c. unfold isin. now apply mem_In.
Qed.

Lemma mask_true_iff (f : filter_spec) (r : usage_record) :
  mask f r = true <-> within_range f r /\ categorical f r.
Proof.
  unfold mask, categorical.
  rewrite !dimension_passes, andb_true_iff.
  unfold within_range, ts_ge, ts_le, start_date, end_date.
  assert (Hend : forall d, d + NS_PER_DAY - NS_PER_SECOND = d + 86399 * NS_PER_SECOND)
    by (intros d; unfold NS_PER_DAY; lia).
  rewrite Hend.
  destruct (timestamp r) as [t |].
  - rewrite Z.leb_le, Z.leb_le. split.
    + intros [[[[[H1 H2] H3] H4] H5] H6]. repeat split; try assumption.
      exists t. repeat split; assumption.
    + intros [[t' [Ht [H1 H2]]] [H3 [H4 [H5 H6]]]]. injection Ht as <-.
      repeat split; assumption.
  - split.
    + intros [[[[[H1 _] _] _] _] _]. discriminate.
    + intros [[t' [Ht _]] _]. discriminate.
Qed.

Lemma In_apply_filters (f : filter_spec) (df : list usage_record) (r : usage_record) :
  In r (apply_filters f df) <-> In r df /\ within_range f r /\ categorical f r.
Proof.
  unfold apply_filters. rewrite filter_In, mask_true_iff. tauto.
Qed.

(** C5 at the final second of the range.  The row stamped
    2025-01-01T23:59:59.5 lies on the last (and only) calendar day of the
    range (2025-01-01, 2025-01-01) and no categorical filter is set, so the
    claim has it in the result; the end bound of line 168 is 23:59:59 of
    that day, and the filter layer drops the row. *)
Lemma filter_drops_final_second :
  In late_row [late_row]
  /\ on_a_day_of new_year_day late_row
  /\ categorical new_year_day late_row
  /\ ~ In late_row (apply_filters new_year_day [late_row]).
Proof.
  split; [now left |]. split; [| split].
  - eexists. split; [reflexivity |]. vm_compute. split; discriminate.
  - repeat split; now left.
  - vm_compute. intros [].
Qed.

(** What the mask of lines 171-175 computes: the result is the rows of
    the table, in table order, for which the timestamp lies between
    midnight opening the first day and the end bound of line 168 and every
    set categorical filter has the row's value among its members; rows of
    a day of the range stamped at a whole second pass the date
    comparison; when no row passes, the result is the empty table. *)
Theorem apply_filters_exact (f : filter_spec) (df : list usage_record) :
  (forall r, In r (apply_filters f df)
             <-> In r df /\ within_range f r /\ categorical f r)
  /\ (exists keep, apply_filters f df = filter keep df
        /\ forall r, keep r = true <-> within_range f r /\ categorical f r)
  /\ (forall r t, timestamp r = Some t -> t mod NS_PER_SECOND = 0 ->
        on_a_day_of f r -> within_range f r)
  /\ ((forall r, In r df -> ~ (within_range f r /\ categorical f r)) ->
        apply_filters f df = []).
Proof.
  split; [| split; [| split]].
  - intros r. apply In_apply_filters.
  - exists (mask f). split; [reflexivity | apply mask_true_iff].
  - intros r t Ht Hsec [t' [Ht' [Hlo Hhi]]].
    rewrite Ht in Ht'. injection Ht' as <-.
    exists t. split; [assumption |].
    unfold date_to_datetime, NS_PER_DAY in *.
    assert (Hns : NS_PER_SECOND > 0) by (unfold NS_PER_SECOND; lia).
    pose proof (Z_div_mod_eq_full t NS_PER_SECOND) as Hdm.
    rewrite Hsec in Hdm.
    set (s := t / NS_PER_SECOND) in *.
    assert (Hs : t / (86400 * NS_PER_SECOND) = s / 86400).
    { rewrite Z.mul_comm. rewrite <- Z.div_div by lia. reflexivity. }
    rewrite Hs in Hlo, Hhi.
    pose proof (Z_div_mod_eq_full s 86400) as Hs2.
    pose proof (Z.mod_pos_bound s 86400 ltac:(lia)) as Hb.
    nia.
  - intros Hnone. unfold apply_filters.
    induction df as [| r df IH]; [reflexivity |]. simpl.
    destruct (mask f r) eqn:Hm.
    + exfalso. apply (Hnone r); [now left | now apply mask_true_iff].
    + apply IH. intros r' Hin. apply Hnone. now right.
Qed.

(** C9: filtering twice with one filter specification gives what filtering
    once gives. *)
Theorem apply_filters_idempotent (f : filter_spec) (df : list usage_record) :
  apply_filters f (apply_filters f df) = apply_filters f df.
Proof.
  unfold apply_filters.
  induction df as [| r df IH]; [reflexivity |]. simpl.
  destruct (mask f r) eqn:Hm; [| exact IH].
  simpl. rewrite Hm. now f_equal.
Qed.

Lemma categorical_dimensions (f : filter_spec) (r : usage_record) :
  categorical f r <-> forall d, passes (selection d f) (value d r).
Proof.
  unfold categorical. split.
  - intros [H1 [H2 [H3 H4]]] []; assumption.
  - intros H. repeat split;
      [apply (H Tech) | apply (H Region) | apply (H City) | apply (H Site)].
Qed.

(** C10: a row whose cell in a categorical dimension is missing is not in
    the result when a non-empty selection is supplied for that dimension;
    with that dimension left unset the missing cell does not matter: the
    row is in the result exactly when the date predicate and the other
    dimensions' predicates hold. *)
Theorem missing_value_excluded_by_selection
    (f : filter_spec) (df : list usage_record) (r : usage_record)
    (d : dimension) (Hnull : value d r = None) :
  (selection d f <> [] -> ~ In r (apply_filters f df))
  /\ (selection d f = [] ->
      (In r (apply_filters f df)
       <-> In r df /\ within_range f r
           /\ forall d', d' <> d -> passes (selection d' f) (value d' r))).
Proof.
  split.
  - intros Hsel Hin.
    apply In_apply_filters in Hin.
    destruct Hin as [_ [_ Hcat]].
    rewrite categorical_dimensions in Hcat.
    destruct (Hcat d) as [Hempty | [s [Hs _]]]; [contradiction | congruence].
  - intros Hunset.
    rewrite In_apply_filters, categorical_dimensions.
    split.
    + intros [Hin [Hr Hall]]. repeat split; try assumption.
      intros d' _. apply Hall.
    + intros [Hin [Hr Hothers]]. repeat split; try assumption.
      intros d'. destruct d, d'; try (now left);
        apply Hothers; discriminate.
Qed.

Lemma missing_value_excluded_by_selection_witness :
  ~ In no_tech_row (apply_filters only_5G [no_tech_row]).
Proof.
  apply (proj1 (missing_value_excluded_by_selection
                  only_5G [no_tech_row] no_tech_row Tech eq_refl)).
  discriminate.
Defined.

(** ** Key orders *)

Lemma ascii_compare_refl (a : ascii) : Ascii.compare a a = Eq.
Proof. unfold Ascii.compare. apply N.compare_refl. Qed.

Lemma ascii_compare_lt_trans (a b c : ascii) :
  Ascii.compare a b = Lt -> Ascii.compare b c = Lt -> Ascii.compare a c = Lt.
Proof.
  unfold Ascii.compare. rewrite !N.compare_lt_iff. apply N.lt_trans.
Qed.

Lemma string_compare_refl (s : string) : String.compare s s = Eq.
Proof.
  induction s as [| a s IH]; simpl; [reflexivity |].
  now rewrite ascii_compare_refl.
Qed.

Lemma string_compare_lt_trans (s1 s2 s3 : string) :
  String.compare s1 s2 = Lt -> String.compare s2 s3 = Lt ->
  String.compare s1 s3 = Lt.
Proof.
  revert s2 s3.
  induction s1 as [| x s1 IH]; intros [| y s2] [| z s3]; simpl;
    try discriminate; try reflexivity.
  destruct (Ascii.compare x y) eqn:Hxy; try discriminate;
    destruct (Ascii.compare y z) eqn:Hyz; try discriminate; intros H1 H2.
  - apply Ascii.compare_eq_iff in Hxy, Hyz. subst.
    rewrite ascii_compare_refl. now apply IH with s2.
  - apply Ascii.compare_eq_iff in Hxy. subst. now rewrite Hyz.
  - apply Ascii.compare_eq_iff in Hyz. subst. now rewrite Hxy.
  - now rewrite (ascii_compare_lt_trans _ _ _ Hxy Hyz).
Qed.

#[export] Instance string_CmpOK : CmpOK String.compare.
Proof.
  constructor.
  - apply String.compare_eq_iff.
  - apply string_compare_refl.
  - apply String.compare_antisym.
  - apply string_compare_lt_trans.
Qed.

#[export] Instance Z_CmpOK : CmpOK Z.compare.
Proof.
  constructor.
  - intros a b. apply Z.compare_eq.
  - apply Z.compare_refl.
  - intros a b. now rewrite Z.compare_antisym.
  - intros a b c. rewrite !Z.compare_lt_iff. apply Z.lt_trans.
Qed.

#[export] Instance lex_CmpOK {A B : Type}
    (ca : A -> A -> comparison) (cb : B -> B -> comparison)
    `{!CmpOK ca} `{!CmpOK cb} : CmpOK (lex_compare ca cb).
Proof.
  constructor; unfold lex_compare.
  - intros [a1 b1] [a2 b2]; simpl.
    destruct (ca a1 a2) eqn:Ha; try discriminate. intros Hb.
    apply cmp_eq in Ha, Hb. now subst.
  - intros [a b]; simpl. rewrite cmp_refl. apply cmp_refl.
  - intros [a1 b1] [a2 b2]; simpl.
    rewrite (cmp_antisym a1 a2).
    destruct (ca a2 a1); simpl; try reflexivity. apply cmp_antisym.
  - intros [a1 b1] [a2 b2] [a3 b3]; simpl.
    destruct (ca a1 a2) eqn:H12; try discriminate;
      destruct (ca a2 a3) eqn:H23; try discriminate; intros H1 H2.
    + apply cmp_eq in H12, H23. subst. rewrite cmp_refl.
      now apply cmp_trans with b2.
    + apply cmp_eq in H12. subst. now rewrite H23.
    + apply cmp_eq in H23. subst. now rewrite H12.
    + now rewrite (cmp_trans _ _ _ H12 H23).
Qed.

#[export] Instance site_Z_CmpOK : CmpOK site_Z_compare.
Proof. unfold site_Z_compare. typeclasses eauto. Qed.

#[export] Instance Z_string_CmpOK : CmpOK Z_string_compare.
Proof. unfold Z_string_compare. typeclasses eauto. Qed.

Section KeyFacts.
Context {K : Type} (cmp : K -> K -> comparison) `{!CmpOK cmp}.

Lemma cmp_gt_lt (a b : K) : cmp a b = Gt -> cmp b a = Lt.
Proof. intros H. rewrite cmp_antisym, H. reflexivity. Qed.

Lemma cmp_eq_iff (a b : K) : cmp a b = Eq <-> a = b.
Proof. split; [apply cmp_eq | intros ->; apply cmp_refl]. Qed.

Lemma insert_key_In (k x : K) (l : list K) :
  In x (insert_key cmp k l) <-> x = k \/ In x l.
Proof.
  induction l as [| k' l IH]; simpl.
  - intuition.
  - destruct (cmp k k') eqn:Hc; simpl.
    + apply cmp_eq in Hc. subst k'. intuition.
    + intuition.
    + rewrite IH. intuition.
Qed.

Lemma insert_key_ascending (k : K) (l : list K) :
  ascending cmp l -> ascending cmp (insert_key cmp k l).
Proof.
  unfold ascending.
  induction l as [| k' l IH]; simpl; intros Hs.
  - constructor; constructor.
  - destruct (cmp k k') eqn:Hc.
    + exact Hs.
    + constructor; [exact Hs |].
      apply StronglySorted_inv in Hs. destruct Hs as [_ Hall].
      constructor; [exact Hc |].
      eapply Forall_impl; [| exact Hall].
      intros a Ha. now apply cmp_trans with k'.
    + apply StronglySorted_inv in Hs. destruct Hs as [Hs Hall].
      constructor; [now apply IH |].
      apply Forall_forall. intros x Hx. apply insert_key_In in Hx.
      destruct Hx as [-> | Hx]; [now apply cmp_gt_lt |].
      rewrite Forall_forall in Hall. now apply Hall.
Qed.

Lemma ascending_NoDup (l : list K) : ascending cmp l -> NoDup l.
Proof.
  unfold ascending. induction 1 as [| a l Hs IH Hall]; constructor; [| exact IH].
  intros Hin. rewrite Forall_forall in Hall.
  specialize (Hall a Hin). rewrite cmp_refl in Hall. discriminate.
Qed.

Lemma fold_insert_key_In (x : K) (ks : list K) :
  In x (fold_right (insert_key cmp) [] ks) <-> In x ks.
Proof.
  induction ks as [| k ks IH]; simpl; [tauto |].
  rewrite insert_key_In, IH. intuition.
Qed.

Lemma fold_insert_key_ascending (ks : list K) :
  ascending cmp (fold_right (insert_key cmp) [] ks).
Proof.
  induction ks as [| k ks IH]; simpl; [constructor |].
  now apply insert_key_ascending.
Qed.

Section Rows.
Context {R : Type} (key_of : R -> option K).

Lemma group_keys_present (rows : list R) :
  group_keys cmp key_of rows
  = fold_right (insert_key cmp) [] (present_keys key_of rows).
Proof.
  unfold group_keys, present_keys.
  induction rows as [| r rows IH]; simpl; [reflexivity |].
  unfold add_key at 1. rewrite IH. now destruct (key_of r).
Qed.

Lemma present_keys_In (k : K) (rows : list R) :
  In k (present_keys key_of rows) <-> exists r, In r rows /\ key_of r = Some k.
Proof.
  unfold present_keys. rewrite in_flat_map. split.
  - intros [r [Hin Hk]]. exists r. split; [exact Hin |].
    destruct (key_of r) as [k' |]; simpl in Hk; [| contradiction].
    destruct Hk as [-> | []]. reflexivity.
  - intros [r [Hin Hk]]. exists r. split; [exact Hin |].
    rewrite Hk. now left.
Qed.

Lemma group_keys_In (k : K) (rows : list R) :
  In k (group_keys cmp key_of rows) <-> exists r, In r rows /\ key_of r = Some k.
Proof.
  rewrite group_keys_present, fold_insert_key_In. apply present_keys_In.
Qed.

Lemma group_keys_ascending (rows : list R) :
  ascending cmp (group_keys cmp key_of rows).
Proof. rewrite group_keys_present. apply fold_insert_key_ascending. Qed.

Lemma group_rows_In (k : K) (r : R) (rows : list R) :
  In r (group_rows cmp key_of k rows) <-> In r rows /\ key_of r = Some k.
Proof.
  unfold group_rows, in_group. rewrite filter_In.
  destruct (key_of r) as [k' |].
  - split; intros [Hin H]; split; try exact Hin.
    + destruct (cmp k k') eqn:Hc; try discriminate.
      apply cmp_eq in Hc. now subst.
    + injection H as ->. now rewrite cmp_refl.
  - split; intros [_ H]; discriminate.
Qed.

End Rows.
End KeyFacts.

(** ** Record validator *)

Lemma not_mem_In (s : string) (l : list string) : mem s l = false <-> ~ In s l.
Proof.
  rewrite <- mem_In. destruct (mem s l); split; intros H;
    try discriminate; try reflexivity; try (intros H'; discriminate).
  now contradiction H.
Qed.

Lemma rename_same (a : string) (cols : list string) : rename a a cols = cols.
Proof.
  unfold rename. induction cols as [| c cols IH]; simpl; [reflexivity |].
  rewrite IH. destruct (String.eqb_spec c a); now subst.
Qed.

Lemma apply_aliases_columns (csv : raw_frame) :
  columns (_apply_aliases csv) = resolve_timestamp (columns csv).
Proof.
  unfold _apply_aliases, resolve_timestamp, aliases, apply_alias; simpl.
  destruct (mem "timestamp" (columns csv)); [now rewrite rename_same |].
  repeat match goal with
         | |- context [mem ?a (columns csv)] =>
             destruct (mem a (columns csv)); [reflexivity |]
         end.
  reflexivity.
Qed.

Lemma apply_aliases_data (csv : raw_frame) : data (_apply_aliases csv) = data csv.
Proof. reflexivity. Qed.

Lemma index_of_In (name : string) (cols : list string) :
  In name cols -> exists i, index_of name cols = Some i.
Proof.
  induction cols as [| c cols IH]; simpl; [intros [] |].
  intros Hin. destruct (String.eqb_spec c name) as [-> | Hne].
  - now exists O.
  - destruct Hin as [-> | Hin]; [contradiction |].
    destruct (IH Hin) as [i Hi]. rewrite Hi. now exists (S i).
Qed.

Lemma missing_nil_iff (cols required : list string) :
  filter (fun c => negb (mem c cols)) required = []
  <-> forall c, In c required -> In c cols.
Proof.
  induction required as [| c required IH]; simpl.
  - split; [intros _ c [] | reflexivity].
  - destruct (mem c cols) eqn:Hm; simpl.
    + rewrite IH. apply mem_In in Hm. split.
      * intros H x [<- | Hx]; auto.
      * intros H x Hx. apply H. now right.
    + apply not_mem_In in Hm. split; [discriminate |].
      intros H. exfalso. apply Hm, H. now left.
Qed.

Lemma missing_In (cols required : list string) (c : string) :
  In c (filter (fun c => negb (mem c cols)) required)
  <-> In c required /\ ~ In c cols.
Proof.
  rewrite filter_In, negb_true_iff, not_mem_In. reflexivity.
Qed.

Lemma sorted_set_In (c : string) (s : list string) :
  In c (sorted_set s) <-> In c s.
Proof. apply fold_insert_key_In. typeclasses eauto. Qed.

Lemma sorted_set_ascending (s : list string) :
  ascending String.compare (sorted_set s).
Proof. apply fold_insert_key_ascending. typeclasses eauto. Qed.

Section LoaderFacts.
Variable parse_datetime : string -> option Z.
Variable parse_numeric : string -> Num.t.

Local Abbreviation load := (read_network_csv parse_datetime parse_numeric).

Lemma schema_error_shape (csv : raw_frame) (required_cols m e : list string) :
  load csv required_cols = Err (SchemaError m e) ->
  let missing :=
    filter (fun c => negb (mem c (columns (_apply_aliases csv)))) required_cols in
  missing <> [] /\ m = sorted_set missing /\ e = sorted_set required_cols.
Proof.
  unfold read_network_csv.
  destruct (filter _ required_cols) as [| c missing] eqn:Hmiss.
  - intros H. exfalso. revert H.
    unfold column.
    repeat match goal with
           | |- context [index_of ?n ?cs] => destruct (index_of n cs); simpl
           | |- context [forallb ?f ?l] => destruct (forallb f l); simpl
           | |- context [mem ?n ?cs] => destruct (mem n cs); simpl
           end; discriminate.
  - intros H. injection H as <- <-. simpl. repeat split. discriminate.
Qed.

(** C6: the loader fails with a schema error exactly when some required
    field is not among the columns after alias resolution (the candidates
    [timestamp], [time], [datetime], [event_time], [date_time] are tried in
    this order and the first one found becomes [timestamp]).  The error
    lists the missing required fields and the whole required set, each in
    ascending order without repetition.  A header that lacks only
    [cell_id] gives the missing list [["cell_id"]]. *)
Theorem schema_error_exact (csv : raw_frame) (required_cols : list string) :
  let cols := resolve_timestamp (columns csv) in
  columns (_apply_aliases csv) = cols
  /\ ((exists m e, load csv required_cols = Err (SchemaError m e))
      <-> exists c, In c required_cols /\ ~ In c cols)
  /\ (forall m e, load csv required_cols = Err (SchemaError m e) ->
        ascending String.compare m
        /\ (forall c, In c m <-> In c required_cols /\ ~ In c cols)
        /\ ascending String.compare e
        /\ (forall c, In c e <-> In c required_cols))
  /\ (forall rows,
        load {| columns := header_without_cell_id; data := rows |} REQUIRED_COLS
        = Err (SchemaError
                 ["cell_id"]
                 ["capacity_mbps"; "cell_id"; "city"; "latency_ms";
                  "packet_loss_pct"; "region"; "site_id"; "tech";
                  "throughput_mbps"; "timestamp"; "users_active";
                  "utilization_pct"])%string).
Proof.
  intros cols. split; [apply apply_aliases_columns |].
  split; [| split].
  - split.
    + intros [m [e H]]. apply schema_error_shape in H.
      destruct H as [Hne _]. rewrite apply_aliases_columns in Hne.
      fold cols in Hne.
      destruct (filter _ required_cols) as [| c rest] eqn:Hf; [contradiction |].
      exists c. apply missing_In. rewrite Hf. now left.
    + intros [c Hc]. apply missing_In in Hc.
      unfold read_network_csv. rewrite apply_aliases_columns. fold cols.
      destruct (filter _ required_cols) as [| c' rest]; [contradiction |].
      eauto.
  - intros m e H. apply schema_error_shape in H.
    destruct H as [_ [-> ->]]. rewrite apply_aliases_columns. fold cols.
    split; [apply sorted_set_ascending |].
    split; [| split; [apply sorted_set_ascending | intros c; apply sorted_set_In]].
    intros c. rewrite sorted_set_In. apply missing_In.
  - intros rows. reflexivity.
Qed.

Lemma column_present (df : raw_frame) (name : string) :
  In name (columns df) -> exists i, column df name = Ok i.
Proof.
  intros Hin. destruct (index_of_In _ _ Hin) as [i Hi].
  exists i. unfold column. now rewrite Hi.
Qed.

Lemma backfill_timestamps (df : list usage_record) :
  map timestamp (backfill df) = map timestamp df.
Proof.
  unfold backfill. destruct (existsb _ _); [| reflexivity].
  rewrite map_map. apply map_ext. intros r. unfold backfill_row.
  now destruct (Num.isna (utilization_pct r)).
Qed.

(** C7: when every required field is present after alias resolution, the
    loader fails with a timestamp error exactly when no row has a
    timestamp that parses; when at least one row parses the load succeeds,
    and the timestamp of each row is the parsed value, missing where the
    text did not parse. *)
Theorem timestamp_error_exact (csv : raw_frame)
    (Hschema : forall c, In c REQUIRED_COLS -> In c (columns (_apply_aliases csv))) :
  exists ts, column (_apply_aliases csv) "timestamp" = Ok ts
  /\ let parsed :=
       map (fun row => to_datetime parse_datetime (at_column ts row)) (data csv) in
     (load csv REQUIRED_COLS = Err TimestampError
      <-> forall t, In t parsed -> t = None)
     /\ ((exists t, In (Some t) parsed) ->
         exists records, load csv REQUIRED_COLS = Ok records
                         /\ map timestamp records = parsed).
Proof.
  set (df := _apply_aliases csv) in *.
  assert (Hcol : forall c, In c REQUIRED_COLS -> exists i, column df c = Ok i)
    by (intros c Hc; apply column_present, Hschema, Hc).
  destruct (Hcol "timestamp"%string) as [ts Hts]; [simpl; tauto |].
  destruct (Hcol "capacity_mbps"%string) as [cap Hcap]; [simpl; tauto |].
  destruct (Hcol "throughput_mbps"%string) as [thr Hthr]; [simpl; tauto |].
  destruct (Hcol "utilization_pct"%string) as [util Hutil]; [simpl; tauto |].
  destruct (Hcol "latency_ms"%string) as [lat Hlat]; [simpl; tauto |].
  destruct (Hcol "packet_loss_pct"%string) as [loss Hloss]; [simpl; tauto |].
  destruct (Hcol "users_active"%string) as [users Husers]; [simpl; tauto |].
  exists ts. split; [exact Hts |]. intros parsed.
  assert (Hall : forallb (fun row => is_none (to_datetime parse_datetime (at_column ts row)))
                         (data csv) = true
                 <-> forall t, In t parsed -> t = None).
  { rewrite forallb_forall. unfold parsed. split.
    - intros H t Ht. apply in_map_iff in Ht. destruct Ht as [row [<- Hrow]].
      specialize (H row Hrow). now destruct (to_datetime _ _).
    - intros H row Hrow.
      rewrite (H (to_datetime parse_datetime (at_column ts row))); [reflexivity |].
      apply in_map_iff. now exists row. }
  assert (Hmiss : filter (fun c => negb (mem c (columns df))) REQUIRED_COLS = [])
    by now apply missing_nil_iff.
  unfold read_network_csv. fold df. rewrite Hmiss, Hts. cbv [bind].
  change (data df) with (data csv).
  destruct (forallb _ (data csv)) eqn:Hf.
  - split; [split; [intros _; now apply Hall | reflexivity] |].
    intros [t Ht]. apply Hall in Ht; [discriminate | reflexivity].
  - rewrite Hcap, Hthr, Hutil, Hlat, Hloss, Husers. cbv [bind].
    split.
    + split; [destruct (mem _ _); discriminate |].
      intros H. apply Hall in H. discriminate.
    + intros _.
      destruct (mem "utilization_pct" (columns df)); eexists;
        (split; [reflexivity |]);
        rewrite ?backfill_timestamps, map_map; reflexivity.
Qed.

End LoaderFacts.

Lemma timestamp_error_exact_witness :
  exists ts, column (_apply_aliases demo_csv) "timestamp" = Ok ts
  /\ let parsed :=
       map (fun row => to_datetime demo_datetime (at_column ts row))
           (data demo_csv) in
     (read_network_csv demo_datetime demo_numeric demo_csv REQUIRED_COLS
      = Err TimestampError
      <-> forall t, In t parsed -> t = None)
     /\ ((exists t, In (Some t) parsed) ->
         exists records,
           read_network_csv demo_datetime demo_numeric demo_csv REQUIRED_COLS
           = Ok records
           /\ map timestamp records = parsed).
Proof.
  apply (timestamp_error_exact demo_datetime demo_numeric demo_csv).
  intros c Hc. vm_compute in Hc. vm_compute.
  repeat (destruct Hc as [<- | Hc]; [tauto |]). destruct Hc.
Defined.

(** ** Backfill of [utilization_pct] *)

Lemma backfill_rowwise (df : list usage_record) :
  backfill df = map backfill_row df.
Proof.
  unfold backfill.
  destruct (existsb (fun b => b) (map (fun r => Num.isna (utilization_pct r)) df))
    eqn:Hany; [reflexivity |].
  symmetry. rewrite <- (map_id df) at 2. apply map_ext_in.
  intros r Hr. unfold backfill_row.
  destruct (Num.isna (utilization_pct r)) eqn:Hna; [| reflexivity].
  exfalso. rewrite <- not_true_iff_false in Hany. apply Hany.
  apply existsb_exists. exists true. split; [| reflexivity].
  apply in_map_iff. now exists r.
Qed.

Lemma zero_capacity_calc (r : usage_record) :
  Num.eqb (capacity_mbps r) (Num.of_Z 0) = true ->
  Num.gtb (throughput_mbps r) (Num.of_Z 0) = true ->
  calc r = Num.PosInf.
Proof.
  unfold calc, Num.eqb, Num.gtb, Num.ltb, Num.of_Z.
  destruct (capacity_mbps r) as [| | c |]; simpl; try discriminate.
  intros Hc.
  apply andb_true_iff in Hc. rewrite !Qle_bool_iff in Hc.
  assert (Hz : Qeq_bool c 0 = true)
    by (apply Qeq_bool_iff; apply Qle_antisym; tauto).
  destruct (throughput_mbps r) as [| | a |]; simpl; try discriminate.
  - rewrite Hz. rewrite andb_true_iff, negb_true_iff, Qle_bool_iff.
    intros [Ha1 Ha2].
    assert (Ha : (0 < Qnum a)%Z).
    { destruct (Z_lt_le_dec 0 (Qnum a)) as [H | H]; [exact H |].
      exfalso. rewrite <- not_true_iff_false, Qle_bool_iff in Ha2. apply Ha2.
      unfold Qle. simpl. lia. }
    destruct (Qnum a); try lia. reflexivity.
  - intros _.
    assert (Hn : (Qnum c <? 0) = false).
    { apply Z.ltb_ge. destruct Hc as [_ Hc]. unfold Qle in Hc. simpl in Hc. lia. }
    rewrite Hn. reflexivity.
Qed.

(** C2 at a capacity of zero.  With [utilization_pct] missing, a capacity
    of zero and a positive throughput, the quotient is [+inf] and the
    clipped value stored is 100, not a missing value; the SQL of the
    database path yields a missing value for the same reading.  The loader
    run on such a row returns it with [utilization_pct = 100]. *)
Theorem zero_capacity_backfills_100 :
  (forall r, Num.isna (utilization_pct r) = true ->
             Num.eqb (capacity_mbps r) (Num.of_Z 0) = true ->
             Num.gtb (throughput_mbps r) (Num.of_Z 0) = true ->
             utilization_pct (backfill_row r) = Num.of_Z 100)
  /\ read_network_csv demo_datetime demo_numeric zero_capacity_csv REQUIRED_COLS
     = Ok [set_utilization_pct zero_capacity_record (Num.of_Z 100)]
  /\ fetch_sample_usage_utilization
       (capacity_mbps zero_capacity_record)
       (throughput_mbps zero_capacity_record) = Num.NaN.
Proof.
  split; [| split].
  - intros r Hna Hcap Hthr. unfold backfill_row. rewrite Hna. simpl.
    now rewrite (zero_capacity_calc r Hcap Hthr).
  - vm_compute. reflexivity.
  - reflexivity.
Qed.

(** What the backfill does otherwise: a present [utilization_pct] is kept
    as it is, also above 100; a missing one becomes the clipped quotient,
    which is missing when the capacity or the throughput is missing. *)
Lemma backfill_row_cases (r : usage_record) :
  (Num.isna (utilization_pct r) = false -> backfill_row r = r)
  /\ (Num.isna (utilization_pct r) = true ->
      utilization_pct (backfill_row r)
      = Num.clip (Num.of_Z 0) (Num.of_Z 100)
          (Num.mul (Num.div (throughput_mbps r) (capacity_mbps r)) (Num.of_Z 100)))
  /\ (Num.isna (utilization_pct r) = true ->
      Num.isna (capacity_mbps r) = true \/ Num.isna (throughput_mbps r) = true ->
      utilization_pct (backfill_row r) = Num.NaN).
Proof.
  unfold backfill_row. split; [| split].
  - now intros ->.
  - now intros ->.
  - intros -> H. simpl. unfold calc.
    destruct (capacity_mbps r), (throughput_mbps r);
      destruct H as [H | H]; try discriminate; reflexivity.
Qed.

(** ** Stable sorting *)

Section SortFacts.
Context {A : Type} (leb : A -> A -> bool).

Lemma insert_Permutation (x : A) (l : list A) :
  Permutation (insert leb x l) (x :: l).
Proof.
  induction l as [| y l IH]; simpl; [reflexivity |].
  destruct (leb x y); [reflexivity |].
  rewrite IH. apply perm_swap.
Qed.

Lemma sort_Permutation (l : list A) : Permutation (sort leb l) l.
Proof.
  unfold sort. induction l as [| x l IH]; simpl; [reflexivity |].
  rewrite insert_Permutation. now constructor.
Qed.

Lemma sort_In (x : A) (l : list A) : In x (sort leb l) <-> In x l.
Proof.
  split; apply Permutation_in;
    [apply sort_Permutation | symmetry; apply sort_Permutation].
Qed.

Context `{!PreorderOK leb}.

Lemma insert_refined (tie : A -> A -> Prop) (x : A) (l : list A) :
  Forall (tie x) l ->
  StronglySorted (refined leb tie) l ->
  StronglySorted (refined leb tie) (insert leb x l).
Proof.
  induction l as [| y l IH]; simpl; intros Hx Hs.
  - constructor; constructor.
  - apply StronglySorted_inv in Hs. destruct Hs as [Hs Hy].
    pose proof (Forall_inv Hx) as Hxy.
    pose proof (Forall_inv_tail Hx) as Hxl.
    destruct (leb x y) eqn:Hle.
    + constructor; [now constructor |].
      constructor; [split; [exact Hle | now intros _] |].
      rewrite Forall_forall in Hy, Hxl |- *. intros z Hz.
      destruct (Hy z Hz) as [Hyz _].
      split; [now apply leb_trans with y | intros _; now apply Hxl].
    + constructor; [now apply IH |].
      rewrite Forall_forall in Hy |- *. intros z Hz.
      apply (Permutation_in _ (insert_Permutation x l)) in Hz.
      destruct Hz as [<- | Hz]; [| now apply Hy].
      split.
      * destruct (leb_total x y) as [H | H]; [congruence | exact H].
      * intros H. congruence.
Qed.

Lemma sort_refined (tie : A -> A -> Prop) (l : list A) :
  StronglySorted tie l -> StronglySorted (refined leb tie) (sort leb l).
Proof.
  unfold sort. induction 1 as [| x l Hs IH Hx]; simpl; [constructor |].
  apply insert_refined; [| exact IH].
  rewrite Forall_forall in Hx |- *. intros z Hz. apply Hx.
  exact (proj1 (sort_In z l) Hz).
Qed.

Lemma sort_sorted (l : list A) :
  StronglySorted (fun a b => leb a b = true) (sort leb l).
Proof.
  unfold sort. induction l as [| x l IH]; simpl; [constructor |].
  set (s := fold_right (insert leb) [] l) in *. clearbody s.
  induction s as [| y s IHs]; simpl.
  - constructor; constructor.
  - apply StronglySorted_inv in IH. destruct IH as [Hs Hy].
    destruct (leb x y) eqn:Hle.
    + constructor; [now constructor |].
      constructor; [exact Hle |].
      eapply Forall_impl; [| exact Hy]. intros z. now apply leb_trans.
    + constructor; [now apply IHs |].
      rewrite Forall_forall in Hy |- *. intros z Hz.
      apply (Permutation_in _ (insert_Permutation x s)) in Hz.
      destruct Hz as [<- | Hz]; [| now apply Hy].
      destruct (leb_total x y) as [H | H]; [congruence | exact H].
Qed.

End SortFacts.

Lemma StronglySorted_map {A B : Type} (R : A -> A -> Prop) (R' : B -> B -> Prop)
    (f : A -> B) (l : list A) :
  (forall a b, In a l -> In b l -> R a b -> R' (f a) (f b)) ->
  StronglySorted R l -> StronglySorted R' (map f l).
Proof.
  intros Himp Hs. induction Hs as [| a l Hs IH Ha]; simpl; [constructor |].
  constructor.
  - apply IH. intros x y Hx Hy. apply Himp; now right.
  - rewrite Forall_forall in Ha |- *. intros y Hy.
    apply in_map_iff in Hy. destruct Hy as [b [<- Hb]].
    apply Himp; [now left | now right | now apply Ha].
Qed.

(** ** The order on float cells *)

Lemma Qle_bool_total (a b : Q) : Qle_bool a b = true \/ Qle_bool b a = true.
Proof.
  rewrite !Qle_bool_iff. destruct (Qlt_le_dec a b) as [H | H];
    [left; now apply Qlt_le_weak | now right].
Qed.

Lemma Qle_bool_trans (a b c : Q) :
  Qle_bool a b = true -> Qle_bool b c = true -> Qle_bool a c = true.
Proof. rewrite !Qle_bool_iff. apply Qle_trans. Qed.

Lemma leb_total_notna (x y : Num.t) :
  Num.isna x = false -> Num.isna y = false ->
  Num.leb x y = true \/ Num.leb y x = true.
Proof.
  destruct x, y; simpl; try discriminate; intros _ _; auto.
  apply Qle_bool_total.
Qed.

Lemma leb_transitive (x y z : Num.t) :
  Num.leb x y = true -> Num.leb y z = true -> Num.leb x z = true.
Proof.
  destruct x, y, z; simpl; try discriminate; try reflexivity.
  apply Qle_bool_trans.
Qed.

Lemma leb_notna (x y : Num.t) :
  Num.leb x y = true -> Num.isna x = false /\ Num.isna y = false.
Proof. destruct x, y; simpl; try discriminate; auto. Qed.

Lemma desc_leb_iff (x y : Num.t) :
  Num.desc_leb x y = true <-> Num.isna y = true \/ Num.geb x y = true.
Proof.
  unfold Num.geb. destruct x, y; simpl; intuition discriminate.
Qed.

#[export] Instance desc_leb_PreorderOK : PreorderOK Num.desc_leb.
Proof.
  constructor.
  - intros x y. destruct (Num.isna y) eqn:Hy; [left; destruct x, y; try discriminate; reflexivity |].
    destruct (Num.isna x) eqn:Hx; [right; destruct x, y; try discriminate; reflexivity |].
    destruct (leb_total_notna x y Hx Hy) as [H | H]; [right | left];
      destruct x, y; try discriminate; exact H.
  - intros x y z. rewrite !desc_leb_iff. unfold Num.geb.
    intros [Hy | Hyx] [Hz | Hzy]; auto.
    + apply leb_notna in Hzy. destruct Hzy as [_ Hy']. congruence.
    + right. now apply leb_transitive with y.
Qed.

(** A lexicographic order on two keys: the first key decides, the second
    decides among rows equal on the first. *)
Lemma lexicographic_PreorderOK {A : Type} (p q : A -> A -> bool)
    `{!PreorderOK p} `{!PreorderOK q} :
  PreorderOK (fun a b => if p a b then if p b a then q a b else true else false).
Proof.
  constructor.
  - intros a b. destruct (leb_total (leb := p) a b) as [H | H]; rewrite H.
    + destruct (p b a); [apply leb_total | now left].
    + destruct (p a b); [rewrite or_comm; apply leb_total | now right].
  - intros a b c.
    destruct (p a b) eqn:Hab; [| discriminate].
    destruct (p b c) eqn:Hbc; [| intros _; discriminate].
    rewrite (leb_trans (leb := p) a b c Hab Hbc).
    destruct (p c a) eqn:Hca; [| reflexivity].
    rewrite (leb_trans (leb := p) b c a Hbc Hca).
    rewrite (leb_trans (leb := p) c a b Hca Hab).
    apply leb_trans.
Qed.

Lemma on_PreorderOK {A B : Type} (f : A -> B) (leb : B -> B -> bool)
    `{!PreorderOK leb} :
  PreorderOK (fun a b => leb (f a) (f b)).
Proof.
  constructor; intros; [apply leb_total | eapply leb_trans; eassumption].
Qed.

#[export] Instance congested_order_PreorderOK : PreorderOK congested_order.
Proof.
  unfold congested_order.
  exact (@lexicographic_PreorderOK _ _ _
           (on_PreorderOK (fun a => utilization_pct (rec a)) (leb := Num.desc_leb))
           (on_PreorderOK (fun a => latency_ms (rec a)) (leb := Num.desc_leb))).
Qed.

(** ** The engine returns *)

Lemma percentile_nonempty (a : list Num.t) (q : Q) :
  a <> [] -> exists v, Num.percentile a q = Ok v.
Proof.
  intros Ha. unfold Num.percentile.
  destruct a as [| x a]; [contradiction |].
  replace (Z.of_nat (List.length (x :: a)) =? 0) with false
    by (symmetry; apply Z.eqb_neq; simpl List.length; lia).
  destruct (existsb Num.isna (x :: a)); eauto.
Qed.

Lemma any_notna_dropna (s : list Num.t) :
  Num.any_notna s = true <-> Num.dropna s <> [].
Proof.
  unfold Num.any_notna, Num.dropna.
  induction s as [| x s IH]; simpl; [split; [discriminate | congruence] |].
  destruct (Num.notna x); simpl; [split; [discriminate | reflexivity] | exact IH].
Qed.

Lemma p95_total (s : list Num.t) : exists v, p95 s = Ok v.
Proof.
  unfold p95. destruct (Num.any_notna s) eqn:Hany; [| eauto].
  apply percentile_nonempty. now apply any_notna_dropna.
Qed.

Lemma site_hour_agg_total (kg : (string * Z) * list arow) :
  exists x, site_hour_agg kg = Ok x.
Proof.
  destruct kg as [k g]. unfold site_hour_agg.
  destruct (p95_total (col utilization_pct g)) as [v Hv].
  rewrite Hv. simpl. eauto.
Qed.

Lemma mapM_total {E A B : Type} (f : A -> result E B) (l : list A) :
  (forall a, exists b, f a = Ok b) ->
  exists bs, mapM f l = Ok bs /\ Forall2 (fun a b => f a = Ok b) l bs.
Proof.
  intros Hf. induction l as [| a l [bs [Hbs Hall]]]; simpl.
  - exists []. split; [reflexivity | constructor].
  - destruct (Hf a) as [b Hb]. rewrite Hb, Hbs. simpl.
    exists (b :: bs). split; [reflexivity | now constructor].
Qed.

Lemma compute_aggregations_tables (input : frame) :
  let df := working input in
  exists sh,
    Forall2 (fun kg x => site_hour_agg kg = Ok x)
            (groupby site_Z_compare site_hour_key df) sh
    /\ compute_aggregations input
       = Ok {| site_hour := sh;
               site_day := map site_day_agg (groupby site_Z_compare site_day_key df);
               busy_hour :=
                 head1 [] (sort busy_order
                             (map hour_avg (groupby site_Z_compare site_hour_key df)));
               congested_cells :=
                 map project (sort congested_order (filter is_congested df));
               hour_of_day :=
                 map hour_tech_avg (groupby Z_string_compare hour_tech_key df) |}.
Proof.
  intros df.
  destruct (mapM_total site_hour_agg (groupby site_Z_compare site_hour_key df)
              site_hour_agg_total) as [sh [Hsh Hall]].
  exists sh. split; [exact Hall |].
  unfold compute_aggregations. fold df. rewrite Hsh. reflexivity.
Qed.

(** ** Congested cells *)

Lemma working_records (input : frame) : map rec (working input) = records input.
Proof.
  destruct input as [rows | rows]; simpl; rewrite map_map; simpl;
    [apply map_id | reflexivity].
Qed.

Lemma filter_map_commute {A B : Type} (f : A -> B) (p : B -> bool) (l : list A) :
  map f (filter (fun a => p (f a)) l) = filter p (map f l).
Proof.
  induction l as [| a l IH]; simpl; [reflexivity |].
  destruct (p (f a)); simpl; now rewrite IH.
Qed.

Lemma congested_order_not_below (a b : arow) :
  is_congested a = true -> is_congested b = true ->
  congested_order a b = true -> not_below (project a) (project b).
Proof.
  unfold is_congested, congested_order, not_below, Num.geb.
  intros Ha Hb. apply leb_notna in Ha, Hb.
  destruct Ha as [_ Ha], Hb as [_ Hb].
  change (cc_utilization_pct (project a)) with (utilization_pct (rec a)).
  change (cc_utilization_pct (project b)) with (utilization_pct (rec b)).
  change (cc_latency_ms (project a)) with (latency_ms (rec a)).
  change (cc_latency_ms (project b)) with (latency_ms (rec b)).
  set (ua := utilization_pct (rec a)) in *.
  set (ub := utilization_pct (rec b)) in *.
  assert (Hd : forall x y, Num.isna x = false -> Num.isna y = false ->
                           Num.desc_leb x y = Num.leb y x)
    by (intros [] []; simpl; try discriminate; reflexivity).
  rewrite (Hd ua ub Ha Hb), (Hd ub ua Hb Ha).
  unfold Num.gtb, Num.ltb, Num.eqb.
  destruct (Num.leb ub ua); [| discriminate].
  destruct (Num.leb ua ub); simpl; [| now left].
  intros H. right. split; [reflexivity |]. now apply desc_leb_iff.
Qed.

(** C3: the congestion table consists exactly of the records of the input
    whose utilization is at least 80 (the engine takes no threshold),
    each projected to its eight columns, and it is sorted non-increasing
    on (utilization, latency); within one utilization a missing latency
    comes last. *)
Theorem congested_cells_exact (input : frame) :
  exists t, compute_aggregations input = Ok t
  /\ Permutation
       (congested_cells t)
       (map project_record
            (filter (fun r => Num.geb (utilization_pct r) (Num.of_Z 80))
                    (records input)))
  /\ (forall c, In c (congested_cells t) ->
                Num.geb (cc_utilization_pct c) (Num.of_Z 80) = true)
  /\ StronglySorted not_below (congested_cells t).
Proof.
  destruct (compute_aggregations_tables input) as [sh [_ Ht]].
  eexists. split; [exact Ht |]. simpl congested_cells.
  set (df := working input).
  assert (Hperm : Permutation
            (map project (sort congested_order (filter is_congested df)))
            (map project_record
               (filter (fun r => Num.geb (utilization_pct r) (Num.of_Z 80))
                       (records input)))).
  { rewrite <- working_records. fold df.
    rewrite <- (filter_map_commute rec
                  (fun r => Num.geb (utilization_pct r) (Num.of_Z 80)) df).
    rewrite map_map.
    apply Permutation_map with (f := project). apply sort_Permutation. }
  split; [exact Hperm |]. split.
  - intros c Hc. apply (Permutation_in _ Hperm) in Hc.
    apply in_map_iff in Hc. destruct Hc as [r [<- Hr]].
    apply filter_In in Hr. apply Hr.
  - apply StronglySorted_map with (R := fun a b => congested_order a b = true).
    + intros a b Ha Hb. apply sort_In, filter_In in Ha, Hb.
      apply congested_order_not_below; [apply Ha | apply Hb].
    + apply sort_sorted. typeclasses eauto.
Qed.

(** ** Row counts of the grouped tables *)

Lemma Forall2_length_eq {A B : Type} (P : A -> B -> Prop) (l : list A) (l' : list B) :
  Forall2 P l l' -> List.length l = List.length l'.
Proof. induction 1; simpl; congruence. Qed.

Lemma groupby_length {K R : Type} (cmp : K -> K -> comparison) `{!CmpOK cmp}
    (dec : forall x y : K, {x = y} + {x <> y})
    (key_of : R -> option K) (rows : list R) :
  List.length (groupby cmp key_of rows) = distinct dec (present_keys key_of rows).
Proof.
  unfold groupby, distinct. rewrite length_map.
  apply Permutation_length, NoDup_Permutation.
  - apply (ascending_NoDup (cmp := cmp)). now apply group_keys_ascending.
  - apply NoDup_nodup.
  - intros k. rewrite nodup_In, group_keys_In, present_keys_In by assumption.
    reflexivity.
Qed.

Lemma distinct_map_injective {A B : Type}
    (decA : forall x y : A, {x = y} + {x <> y})
    (decB : forall x y : B, {x = y} + {x <> y})
    (f : A -> B) (l : list A) :
  (forall x y, f x = f y -> x = y) ->
  distinct decB (map f l) = distinct decA l.
Proof.
  intros Hinj. unfold distinct.
  induction l as [| x l IH]; simpl; [reflexivity |].
  destruct (in_dec decB (f x) (map f l)) as [Hin | Hin];
    destruct (in_dec decA x l) as [Hin' | Hin']; simpl; try congruence.
  - exfalso. apply Hin'. apply in_map_iff in Hin.
    destruct Hin as [y [Hy Hin]]. apply Hinj in Hy. now subst.
  - exfalso. apply Hin. now apply in_map.
Qed.

Lemma cells_of_present_keys (cells : arow -> option string * option Z)
    (df : list arow) :
  (forall r, In r df -> fst (cells r) <> None /\ snd (cells r) <> None) ->
  map cells df
  = map (fun k => (Some (fst k), Some (snd k)))
        (present_keys (fun r => pair_key (fst (cells r)) (snd (cells r))) df).
Proof.
  unfold present_keys.
  induction df as [| r df IH]; simpl; intros Hall; [reflexivity |].
  destruct (Hall r (or_introl eq_refl)) as [H1 H2].
  rewrite map_app, <- IH by (intros r' Hr'; apply Hall; now right).
  destruct (cells r) as [[s |] [h |]]; simpl in *; congruence.
Qed.

(** C8 as stated fails: of two readings of one hour, one of site S1 and
    one without a site, the input holds two distinct (site_id, hour) pairs
    and two distinct (site_id, date) pairs, and the grouped tables have one
    row each. *)
Lemma unnamed_site_not_counted :
  exists t, compute_aggregations unnamed_site_table = Ok t
  /\ distinct cells_eq_dec (site_hour_cells (working unnamed_site_table)) = 2%nat
  /\ List.length (site_hour t) = 1%nat
  /\ distinct cells_eq_dec (site_day_cells (working unnamed_site_table)) = 2%nat
  /\ List.length (site_day t) = 1%nat.
Proof. eexists. split; [vm_compute; reflexivity |]. repeat split. Qed.

(** C8, amended: the number of rows of [site_hour] is the number of
    distinct (site_id, hour) pairs among the input rows in which both
    cells are present, and the number of rows of [site_day] the number of
    distinct (site_id, date) pairs among the rows in which both are
    present; a row with a missing key cell is in no group.  When no input
    row misses a key cell these are the numbers of distinct pairs of the
    input. *)
Theorem grouped_row_counts (input : frame) :
  exists t, compute_aggregations input = Ok t
  /\ List.length (site_hour t)
     = distinct key_eq_dec (present_keys site_hour_key (working input))
  /\ List.length (site_day t)
     = distinct key_eq_dec (present_keys site_day_key (working input))
  /\ ((forall r, In r (working input) -> site_id (rec r) <> None /\ hour r <> None) ->
      List.length (site_hour t)
      = distinct cells_eq_dec (site_hour_cells (working input)))
  /\ ((forall r, In r (working input) -> site_id (rec r) <> None /\ date r <> None) ->
      List.length (site_day t)
      = distinct cells_eq_dec (site_day_cells (working input))).
Proof.
  destruct (compute_aggregations_tables input) as [sh [Hsh Ht]].
  eexists. split; [exact Ht |]. simpl site_hour. simpl site_day.
  set (df := working input).
  assert (Hhour : List.length sh = distinct key_eq_dec (present_keys site_hour_key df)).
  { rewrite <- (Forall2_length_eq Hsh).
    apply groupby_length. typeclasses eauto. }
  assert (Hday : List.length (map site_day_agg (groupby site_Z_compare site_day_key df))
                 = distinct key_eq_dec (present_keys site_day_key df)).
  { rewrite length_map. apply groupby_length. typeclasses eauto. }
  assert (Hinj : forall x y : string * Z,
             (Some (fst x), Some (snd x)) = (Some (fst y), Some (snd y)) -> x = y).
  { intros [s h] [s' h'] H. simpl in H. injection H as -> ->. reflexivity. }
  split; [exact Hhour |]. split; [exact Hday |]. split.
  - intros Hall. rewrite Hhour. unfold site_hour_cells.
    rewrite (cells_of_present_keys (fun r => (site_id (rec r), hour r)) df Hall).
    symmetry. now apply distinct_map_injective.
  - intros Hall. rewrite Hday. unfold site_day_cells.
    rewrite (cells_of_present_keys (fun r => (site_id (rec r), date r)) df Hall).
    symmetry. now apply distinct_map_injective.
Qed.

(** ** Aggregates and missing values *)

Lemma dropna_all_missing (s : list Num.t) :
  all_missing s <-> Num.dropna s = [].
Proof.
  unfold all_missing, Num.dropna. induction s as [| x s IH]; simpl.
  - split; [reflexivity | intros _ v []].
  - destruct x; simpl.
    + rewrite <- IH. split; [intros H v Hv; apply H; now right |].
      intros H v [<- | Hv]; [reflexivity | now apply H].
    + split; [intros H; discriminate (H Num.NegInf (or_introl eq_refl)) | discriminate].
    + split; [intros H; discriminate (H (Num.Fin q) (or_introl eq_refl)) | discriminate].
    + split; [intros H; discriminate (H Num.PosInf (or_introl eq_refl)) | discriminate].
Qed.

Lemma dropna_idempotent (s : list Num.t) :
  Num.dropna (Num.dropna s) = Num.dropna s.
Proof.
  unfold Num.dropna. induction s as [| x s IH]; simpl; [reflexivity |].
  destruct (Num.notna x) eqn:Hx; simpl; [rewrite Hx, IH |]; auto.
Qed.

Lemma dropna_notna (s : list Num.t) (x : Num.t) :
  In x (Num.dropna s) <-> In x s /\ Num.isna x = false.
Proof.
  unfold Num.dropna. rewrite filter_In. unfold Num.notna.
  now rewrite negb_true_iff.
Qed.

Lemma mean_fold_dropna (s : list Num.t) (acc : Z * Num.t) :
  fold_left Num.mean_step s acc = fold_left Num.mean_step (Num.dropna s) acc.
Proof.
  revert acc. unfold Num.dropna.
  induction s as [| x s IH]; intros acc; simpl; [reflexivity |].
  unfold Num.notna. destruct (Num.isna x) eqn:Hx; simpl.
  - rewrite <- IH. unfold Num.mean_step at 2. now rewrite Hx.
  - now rewrite IH.
Qed.

Lemma mean_fold_present (v : list Num.t) (n : Z) (acc : Num.t) :
  Forall (fun x => Num.isna x = false) v ->
  fold_left Num.mean_step v (n, acc)
  = (n + Z.of_nat (List.length v), fold_left Num.add v acc).
Proof.
  intros Hv. revert n acc.
  induction Hv as [| x v Hx Hv IH]; intros n acc; simpl fold_left.
  - simpl. f_equal. lia.
  - unfold Num.mean_step at 2. rewrite Hx. simpl fst. simpl snd.
    rewrite IH. f_equal. simpl List.length. lia.
Qed.

Lemma dropna_Forall (s : list Num.t) :
  Forall (fun x => Num.isna x = false) (Num.dropna s).
Proof. apply Forall_forall. intros x Hx. now apply dropna_notna in Hx. Qed.

Lemma mean_is_mean_of_present (s : list Num.t) :
  Num.mean s = mean_of_present s.
Proof.
  unfold Num.mean, mean_of_present, total.
  rewrite mean_fold_dropna, (mean_fold_present 0 (Num.Fin 0) (dropna_Forall s)).
  destruct (Num.dropna s) as [| x v]; [reflexivity |].
  replace (0 + Z.of_nat (List.length (x :: v)) =? 0) with false; [reflexivity |].
  symmetry. apply Z.eqb_neq. simpl List.length. lia.
Qed.

Lemma mean_dropna (s : list Num.t) : Num.mean s = Num.mean (Num.dropna s).
Proof.
  rewrite !mean_is_mean_of_present. unfold mean_of_present.
  now rewrite dropna_idempotent.
Qed.

Lemma max_fold_dropna (s : list Num.t) (acc : Z * Num.t) :
  fold_left Num.max_step s acc = fold_left Num.max_step (Num.dropna s) acc.
Proof.
  revert acc. unfold Num.dropna.
  induction s as [| x s IH]; intros acc; simpl; [reflexivity |].
  unfold Num.notna. destruct (Num.isna x) eqn:Hx; simpl.
  - rewrite <- IH. unfold Num.max_step at 2. now rewrite Hx.
  - now rewrite IH.
Qed.

Lemma max_dropna (s : list Num.t) : Num.max s = Num.max (Num.dropna s).
Proof. unfold Num.max. now rewrite max_fold_dropna. Qed.

Lemma leb_reflexive (x : Num.t) : Num.isna x = false -> Num.leb x x = true.
Proof.
  destruct x; simpl; try discriminate; try reflexivity.
  intros _. apply Qle_bool_iff, Qle_refl.
Qed.

Lemma NegInf_least (x : Num.t) : Num.leb x Num.NegInf = true -> x = Num.NegInf.
Proof. destruct x; simpl; try discriminate; reflexivity. Qed.

(** The running maximum after a run of present values: it bounds what was
    seen, and it is the start value or one of the values seen. *)
Lemma max_fold_present (v : list Num.t) (n : Z) (m : Num.t) :
  Forall (fun x => Num.isna x = false) v -> Num.isna m = false ->
  exists m', fold_left Num.max_step v (n, m) = (n + Z.of_nat (List.length v), m')
             /\ Num.leb m m' = true
             /\ (forall x, In x v -> Num.leb x m' = true)
             /\ (m' = m \/ In m' v).
Proof.
  intros Hv. revert n m.
  induction Hv as [| x v Hx Hv IH]; intros n m Hm; simpl fold_left.
  - exists m. repeat split.
    + simpl. f_equal. lia.
    + now apply leb_reflexive.
    + intros x [].
    + now left.
  - unfold Num.max_step at 2. rewrite Hx. simpl fst. simpl snd.
    destruct (Num.gtb x m) eqn:Hgt.
    + destruct (IH (n + 1) x Hx) as [m' [Hf [Hle [Hall Hin]]]].
      exists m'. rewrite Hf. repeat split.
      * f_equal. simpl List.length. lia.
      * unfold Num.gtb, Num.ltb in Hgt. apply andb_true_iff in Hgt.
        apply leb_transitive with x; tauto.
      * intros y [<- | Hy]; [exact Hle | now apply Hall].
      * right. destruct Hin as [-> | Hin]; [now left | now right].
    + destruct (IH (n + 1) m Hm) as [m' [Hf [Hle [Hall Hin]]]].
      exists m'. rewrite Hf. repeat split.
      * f_equal. simpl List.length. lia.
      * exact Hle.
      * intros y [<- | Hy]; [| now apply Hall].
        apply leb_transitive with m; [| exact Hle].
        unfold Num.gtb, Num.ltb in Hgt.
        destruct (leb_total_notna m x Hm Hx) as [H | H]; [| exact H].
        rewrite H in Hgt. simpl in Hgt.
        apply negb_false_iff in Hgt. exact Hgt.
      * destruct Hin as [-> | Hin]; [now left | right; now right].
Qed.

Lemma max_is_max_of_present (s : list Num.t) :
  Num.dropna s <> [] -> is_max_of (Num.max s) (Num.dropna s).
Proof.
  intros Hne. rewrite max_dropna. unfold Num.max.
  destruct (@max_fold_present _ 0 Num.NegInf (dropna_Forall (Num.dropna s)) eq_refl)
    as [m [Hf [_ [Hall Hin]]]].
  rewrite dropna_idempotent in *. rewrite Hf.
  destruct (Num.dropna s) as [| x v] eqn:Hs; [contradiction |].
  replace (0 + Z.of_nat (List.length (x :: v)) =? 0) with false
    by (symmetry; apply Z.eqb_neq; simpl List.length; lia).
  split; [| exact Hall].
  destruct Hin as [-> | Hin]; [| exact Hin].
  left. apply NegInf_least, Hall. now left.
Qed.

Lemma p95_dropna (s : list Num.t) : p95 s = p95 (Num.dropna s).
Proof.
  unfold p95. rewrite dropna_idempotent.
  destruct (Num.any_notna s) eqn:H1; destruct (Num.any_notna (Num.dropna s)) eqn:H2;
    try reflexivity.
  - apply any_notna_dropna in H1. rewrite <- dropna_idempotent in H1.
    apply any_notna_dropna in H1. congruence.
  - apply any_notna_dropna in H2. rewrite dropna_idempotent in H2.
    apply any_notna_dropna in H2. congruence.
Qed.

Lemma aggregates_all_missing (s : list Num.t) :
  all_missing s ->
  Num.mean s = Num.NaN /\ Num.max s = Num.NaN /\ p95 s = Ok Num.NaN.
Proof.
  intros H. apply dropna_all_missing in H. split; [| split].
  - rewrite mean_is_mean_of_present. unfold mean_of_present. now rewrite H.
  - rewrite max_dropna, H. reflexivity.
  - unfold p95. destruct (Num.any_notna s) eqn:Hany; [| reflexivity].
    apply any_notna_dropna in Hany. contradiction.
Qed.

Lemma Forall2_In_r {A B : Type} (P : A -> B -> Prop) (l : list A) (l' : list B) (y : B) :
  Forall2 P l l' -> In y l' -> exists x, In x l /\ P x y.
Proof.
  induction 1 as [| a b l l' Hab Hall IH]; simpl; [intros [] |].
  intros [<- | Hy]; [exists a; auto |].
  destruct (IH Hy) as [x [Hx Hp]]. exists x. auto.
Qed.

(** C4: the engine returns for every input table.  Each aggregate of a
    row of [site_hour] and [site_day] is the mean, the 95th percentile or
    the maximum of its group's column (every group has a row of the input);
    each of these skips the missing values: it is the same on the column
    and on the column without its missing values, the mean is the sum of
    the present values over their number, the maximum is a greatest present
    value, the percentile is numpy's percentile of the present values; and
    on a column without a present value, or an empty one, each is
    missing. *)
Theorem aggregates_skip_missing (input : frame) :
  exists t, compute_aggregations input = Ok t
  /\ (forall x, In x (site_hour t) ->
        let g := site_hour_group (working input) (sh_site_id x) (sh_hour x) in
        g <> []
        /\ sh_avg_util x = Num.mean (col utilization_pct g)
        /\ p95 (col utilization_pct g) = Ok (sh_p95_util x)
        /\ sh_avg_latency x = Num.mean (col latency_ms g)
        /\ sh_users x = Num.mean (col users_active g))
  /\ (forall y, In y (site_day t) ->
        let g := site_day_group (working input) (sd_site_id y) (sd_date y) in
        g <> []
        /\ sd_avg_util y = Num.mean (col utilization_pct g)
        /\ sd_peak_util y = Num.max (col utilization_pct g)
        /\ sd_avg_latency y = Num.mean (col latency_ms g)
        /\ sd_users y = Num.mean (col users_active g))
  /\ (forall s,
        (all_missing s ->
         Num.mean s = Num.NaN /\ Num.max s = Num.NaN /\ p95 s = Ok Num.NaN)
        /\ Num.mean s = Num.mean (Num.dropna s)
        /\ Num.max s = Num.max (Num.dropna s)
        /\ p95 s = p95 (Num.dropna s)
        /\ Num.mean s = mean_of_present s
        /\ (~ all_missing s ->
            is_max_of (Num.max s) (Num.dropna s)
            /\ p95 s = Num.percentile (Num.dropna s) 95
            /\ exists p, p95 s = Ok p)).
Proof.
  destruct (compute_aggregations_tables input) as [sh [Hsh Ht]].
  eexists. split; [exact Ht |]. simpl site_hour. simpl site_day.
  set (df := working input) in *.
  assert (Hgroup : forall (key_of : arow -> option (string * Z)) k,
             In k (group_keys site_Z_compare key_of df) ->
             group_rows site_Z_compare key_of k df <> []).
  { intros key_of k Hk. apply group_keys_In in Hk; [| typeclasses eauto].
    destruct Hk as [r Hr]. intros Hnil.
    assert (Hin : In r (group_rows site_Z_compare key_of k df))
      by (apply group_rows_In; [typeclasses eauto | exact Hr]).
    rewrite Hnil in Hin. destruct Hin. }
  split; [| split].
  - intros x Hx. destruct (@Forall2_In_r _ _ _ _ _ x Hsh Hx) as [[k g] [Hkg Hagg]].
    unfold groupby in Hkg. apply in_map_iff in Hkg.
    destruct Hkg as [k' [Heq Hk]]. injection Heq as -> <-.
    unfold site_hour_agg in Hagg.
    destruct (p95 (col utilization_pct (group_rows site_Z_compare site_hour_key k df)))
      as [p |] eqn:Hp; simpl in Hagg; [| discriminate].
    injection Hagg as <-. simpl. unfold site_hour_group.
    destruct k as [site h]. simpl.
    repeat split; try assumption. now apply Hgroup.
  - intros y Hy. apply in_map_iff in Hy. destruct Hy as [[k g] [<- Hkg]].
    unfold groupby in Hkg. apply in_map_iff in Hkg.
    destruct Hkg as [k' [Heq Hk]]. injection Heq as -> <-.
    destruct k as [site d]. simpl. unfold site_day_group.
    repeat split. now apply Hgroup.
  - intros s. split; [apply aggregates_all_missing |].
    split; [apply mean_dropna |]. split; [apply max_dropna |].
    split; [apply p95_dropna |]. split; [apply mean_is_mean_of_present |].
    intros Hsome. rewrite dropna_all_missing in Hsome.
    split; [now apply max_is_max_of_present |].
    assert (Hany : Num.any_notna s = true) by now apply any_notna_dropna.
    split; [unfold p95; now rewrite Hany | apply p95_total].
Qed.

(** ** Busy hour *)

#[export] Instance busy_order_PreorderOK : PreorderOK busy_order.
Proof.
  constructor; unfold busy_order.
  - intros a b. rewrite (cmp_antisym (bh_site_id b) (bh_site_id a)).
    destruct (String.compare (bh_site_id a) (bh_site_id b)); simpl; auto.
    apply leb_total.
  - intros a b c.
    destruct (String.compare (bh_site_id a) (bh_site_id b)) eqn:Hab;
      try discriminate;
      destruct (String.compare (bh_site_id b) (bh_site_id c)) eqn:Hbc;
      try discriminate; intros H1 H2.
    + apply cmp_eq in Hab, Hbc. rewrite Hab, Hbc, cmp_refl.
      now apply leb_trans with (hour_avg_util b).
    + apply cmp_eq in Hab. now rewrite Hab, Hbc.
    + apply cmp_eq in Hbc. now rewrite <- Hbc, Hab.
    + now rewrite (cmp_trans _ _ _ Hab Hbc).
Qed.

Section Head1Facts.
Variable R : busy_hour_row -> busy_hour_row -> Prop.

Lemma head1_In (seen : list string) (l : list busy_hour_row) (b : busy_hour_row) :
  In b (head1 seen l) -> In b l /\ ~ In (bh_site_id b) seen.
Proof.
  revert seen. induction l as [| x l IH]; intros seen; simpl; [intros [] |].
  destruct (mem (bh_site_id x) seen) eqn:Hm.
  - intros Hb. destruct (IH _ Hb). auto.
  - intros [<- | Hb]; [split; [now left | now apply not_mem_In] |].
    destruct (IH _ Hb) as [Hin Hns]. split; [now right |].
    intros Hs. apply Hns. now right.
Qed.

Lemma head1_NoDup (seen : list string) (l : list busy_hour_row) :
  NoDup (map bh_site_id (head1 seen l)).
Proof.
  revert seen. induction l as [| x l IH]; intros seen; simpl; [constructor |].
  destruct (mem (bh_site_id x) seen); [apply IH |].
  simpl. constructor; [| apply IH].
  intros Hin. apply in_map_iff in Hin. destruct Hin as [b [Hb Hin]].
  apply head1_In in Hin. destruct Hin as [_ Hns]. apply Hns. left. now symmetry.
Qed.

Lemma head1_covers (seen : list string) (l : list busy_hour_row) (r : busy_hour_row) :
  In r l -> ~ In (bh_site_id r) seen ->
  exists b, In b (head1 seen l) /\ bh_site_id b = bh_site_id r.
Proof.
  revert seen. induction l as [| x l IH]; intros seen; simpl; [intros [] |].
  intros Hr Hns. destruct (mem (bh_site_id x) seen) eqn:Hm.
  - destruct Hr as [-> | Hr]; [apply mem_In in Hm; contradiction |].
    now apply IH.
  - destruct Hr as [-> | Hr]; [exists r; split; [now left | reflexivity] |].
    destruct (string_dec (bh_site_id x) (bh_site_id r)) as [Heq | Hne].
    + exists x. split; [now left | exact Heq].
    + destruct (IH (bh_site_id x :: seen) Hr) as [b [Hb Hs]].
      * intros [H | H]; [contradiction | contradiction].
      * exists b. split; [now right | exact Hs].
Qed.

Lemma head1_first (seen : list string) (l : list busy_hour_row) (b r : busy_hour_row) :
  StronglySorted R l ->
  In b (head1 seen l) -> In r l -> bh_site_id r = bh_site_id b ->
  r = b \/ R b r.
Proof.
  intros Hs. revert seen.
  induction Hs as [| x l Hs IH Hx]; intros seen; simpl; [intros [] |].
  destruct (mem (bh_site_id x) seen) eqn:Hm.
  - intros Hb [-> | Hr] Hsite; [| now apply IH with seen].
    apply head1_In in Hb. destruct Hb as [_ Hns].
    apply mem_In in Hm. rewrite Hsite in Hm. contradiction.
  - intros [<- | Hb] [<- | Hr] Hsite.
    + now left.
    + right. rewrite Forall_forall in Hx. now apply Hx.
    + apply head1_In in Hb. destruct Hb as [_ Hns].
      exfalso. apply Hns. left. exact Hsite.
    + now apply IH with (bh_site_id x :: seen).
Qed.

End Head1Facts.

Lemma tmp_In (df : list arow) (b : busy_hour_row) :
  In b (map hour_avg (groupby site_Z_compare site_hour_key df))
  <-> site_has_hour df (bh_site_id b) (bh_hour b)
      /\ hour_avg_util b = hour_mean df (bh_site_id b) (bh_hour b).
Proof.
  unfold groupby. rewrite map_map, in_map_iff. unfold site_has_hour. split.
  - intros [[site h] [<- Hk]]. apply group_keys_In in Hk; [| typeclasses eauto].
    simpl. split; [| reflexivity].
    destruct Hk as [r [Hr Hkey]]. exists r. split; [exact Hr |].
    unfold site_hour_key, pair_key in Hkey.
    destruct (site_id (rec r)), (hour r); try discriminate.
    injection Hkey as -> ->. auto.
  - intros [[r [Hr [Hs Hh]]] Havg].
    exists (bh_site_id b, bh_hour b). split.
    + destruct b as [site h avg]. simpl in *. now subst avg.
    + apply group_keys_In; [typeclasses eauto |].
      exists r. split; [exact Hr |].
      unfold site_hour_key. now rewrite Hs, Hh.
Qed.

Lemma tmp_key_sorted (df : list arow) :
  StronglySorted key_before (map hour_avg (groupby site_Z_compare site_hour_key df)).
Proof.
  unfold groupby. rewrite map_map.
  apply StronglySorted_map with (R := fun a b => site_Z_compare a b = Lt).
  - intros [s h] [s' h'] _ _ H. exact H.
  - apply (group_keys_ascending (cmp := site_Z_compare)).
Qed.

Lemma same_site_order (a b : busy_hour_row) :
  bh_site_id a = bh_site_id b ->
  busy_order a b = Num.desc_leb (hour_avg_util a) (hour_avg_util b).
Proof. intros H. unfold busy_order. now rewrite H, cmp_refl. Qed.

Lemma same_site_key_before (a b : busy_hour_row) :
  bh_site_id a = bh_site_id b -> key_before a b -> bh_hour a < bh_hour b.
Proof.
  intros H. unfold key_before, site_Z_compare, lex_compare. simpl.
  rewrite H, cmp_refl. apply Z.compare_lt_iff.
Qed.

(** C1 as stated fails: the table of two readings, one of site S1 and one
    without a site, holds two distinct site_id cells, and [busy_hour] has
    one row. *)
Lemma busy_hour_omits_unnamed_site :
  exists t, compute_aggregations unnamed_site_table = Ok t
  /\ distinct site_cell_eq_dec (site_cells (working unnamed_site_table)) = 2%nat
  /\ List.length (busy_hour t) = 1%nat.
Proof. eexists. split; [vm_compute; reflexivity |]. split; reflexivity. Qed.

Lemma S1_busy_hour :
  exists t1, compute_aggregations S1_table = Ok t1
  /\ busy_hour t1 = [ {| bh_site_id := "S1"; bh_hour := 11;
                         hour_avg_util := Num.of_Z 90 |} ].
Proof. eexists. split; [vm_compute; reflexivity | reflexivity]. Qed.

(** C1, amended: [busy_hour] has exactly one row for each site that has a
    row with both its site_id and its hour present (a row without a
    site_id is in no group).  The row gives an hour of that site and the
    mean utilization of the site in that hour; no hour of the site has a
    greater mean, hours whose mean is missing counting below all others;
    and among the hours with that same mean (or, when every mean of the
    site is missing, among all its hours) it is the lowest.  For the two
    readings 40 and 60 of S1 at hour 10 and the reading 90 at hour 11 the
    row is hour 11 with mean 90. *)
Theorem busy_hour_exact (input : frame) :
  exists t, compute_aggregations input = Ok t
  /\ NoDup (map bh_site_id (busy_hour t))
  /\ (forall site, In site (map bh_site_id (busy_hour t))
                   <-> exists h, site_has_hour (working input) site h)
  /\ (forall b, In b (busy_hour t) ->
        site_has_hour (working input) (bh_site_id b) (bh_hour b)
        /\ hour_avg_util b = hour_mean (working input) (bh_site_id b) (bh_hour b)
        /\ forall h, site_has_hour (working input) (bh_site_id b) h ->
             let m := hour_mean (working input) (bh_site_id b) h in
             (Num.isna m = true \/ Num.leb m (hour_avg_util b) = true)
             /\ (Num.isna (hour_avg_util b) = true
                 \/ Num.leb (hour_avg_util b) m = true ->
                 bh_hour b <= h))
  /\ (exists t1, compute_aggregations S1_table = Ok t1
        /\ busy_hour t1 = [ {| bh_site_id := "S1"; bh_hour := 11;
                               hour_avg_util := Num.of_Z 90 |} ]).
Proof.
  destruct (compute_aggregations_tables input) as [sh [_ Ht]].
  eexists. split; [exact Ht |]. simpl busy_hour.
  set (df := working input).
  set (tmp := map hour_avg (groupby site_Z_compare site_hour_key df)).
  assert (Hsorted : StronglySorted (refined busy_order key_before)
                                   (sort busy_order tmp))
    by (apply sort_refined; [typeclasses eauto | apply tmp_key_sorted]).
  assert (Hin : forall b, In b (head1 [] (sort busy_order tmp)) ->
                          site_has_hour df (bh_site_id b) (bh_hour b)
                          /\ hour_avg_util b = hour_mean df (bh_site_id b) (bh_hour b)).
  { intros b Hb. apply head1_In in Hb. destruct Hb as [Hb _].
    apply sort_In in Hb. now apply tmp_In. }
  split; [apply head1_NoDup |]. split; [| split].
  - intros site. rewrite in_map_iff. split.
    + intros [b [<- Hb]]. exists (bh_hour b). now apply Hin.
    + intros [h Hh].
      assert (Hr : In {| bh_site_id := site; bh_hour := h;
                         hour_avg_util := hour_mean df site h |}
                      (sort busy_order tmp))
        by (apply sort_In, tmp_In; split; [exact Hh | reflexivity]).
      destruct (head1_covers [] _ _ Hr) as [b [Hb Hs]]; [intros [] |].
      exists b. split; [exact Hs | exact Hb].
  - intros b Hb. destruct (Hin b Hb) as [Hhas Havg].
    split; [exact Hhas |]. split; [exact Havg |].
    intros h Hh m.
    set (r := {| bh_site_id := bh_site_id b; bh_hour := h; hour_avg_util := m |}).
    assert (Hr : In r (sort busy_order tmp))
      by (apply sort_In, tmp_In; split; [exact Hh | reflexivity]).
    destruct (@head1_first _ [] _ b r Hsorted Hb Hr eq_refl) as [Heq | [Hbr Htie]].
    + assert (Hm : m = hour_avg_util b) by (rewrite <- Heq; reflexivity).
      assert (Hhour : h = bh_hour b) by (rewrite <- Heq; reflexivity).
      rewrite Hm, Hhour. split; [| intros _; lia].
      destruct (Num.isna (hour_avg_util b)) eqn:Hna; [now left |].
      right. now apply leb_reflexive.
    + rewrite same_site_order in Hbr, Htie by reflexivity.
      simpl hour_avg_util in Hbr, Htie.
      split.
      * apply desc_leb_iff in Hbr. exact Hbr.
      * intros Hle.
        assert (Hlt : bh_hour b < bh_hour r).
        { apply same_site_key_before; [reflexivity |].
          apply Htie. apply desc_leb_iff. exact Hle. }
        simpl in Hlt. lia.
  - exact S1_busy_hour.
Qed.

(** ** Worked examples *)

Example congestion_table_cells :
  exists t, compute_aggregations congestion_table = Ok t
  /\ map (fun c => (cc_utilization_pct c, cc_latency_ms c)) (congested_cells t)
     = [ (Num.of_Z 97, Num.of_Z 10); (Num.of_Z 85, Num.of_Z 40);
         (Num.of_Z 85, Num.NaN); (Num.of_Z 80, Num.of_Z 10) ].
Proof. eexists. split; [vm_compute; reflexivity | reflexivity]. Qed.

Example mean_skips_missing :
  Num.mean [Num.NaN; Num.of_Z 50] = Num.of_Z 50
  /\ Num.max [Num.NaN; Num.of_Z 50; Num.of_Z 20] = Num.of_Z 50
  /\ p95 [Num.NaN; Num.NaN] = Ok Num.NaN
  /\ p95 [Num.of_Z 10; Num.NaN; Num.of_Z 60; Num.of_Z 40] = Ok (Num.of_Z 58).
Proof. repeat split. Qed.

Example whole_seconds_of_the_day_kept :
  let first := sample (at_time 2025 1 1 0 0 0) (Some "S1"%string) (Num.of_Z 40) Num.NaN in
  let last := sample (at_time 2025 1 1 23 59 59) (Some "S1"%string) (Num.of_Z 40) Num.NaN in
  let next := sample (at_time 2025 1 2 0 0 0) (Some "S1"%string) (Num.of_Z 40) Num.NaN in
  apply_filters new_year_day [first; last; next] = [first; last].
Proof. reflexivity. Qed.

Example backfill_half_capacity :
  utilization_pct
    (backfill_row
       {| timestamp := None; region := None; city := None; site_id := None;
          cell_id := None; tech := None;
          capacity_mbps := Num.of_Z 100; throughput_mbps := Num.of_Z 50;
          utilization_pct := Num.NaN; latency_ms := Num.NaN;
          packet_loss_pct := Num.NaN; users_active := Num.NaN |})
  = Num.of_Z 50.
Proof. reflexivity. Qed.

Example demo_csv_loaded :
  exists r1 r2,
    read_network_csv demo_datetime demo_numeric demo_csv REQUIRED_COLS = Ok [r1; r2]
    /\ timestamp r1 = Some (1735725600 * NS_PER_SECOND)
    /\ utilization_pct r1 = Num.of_Z 50
    /\ timestamp r2 = None
    /\ utilization_pct r2 = Num.of_Z 70.
Proof. do 2 eexists. split; [vm_compute; reflexivity |]. repeat split. Qed.

(** * Further properties of the code *)

(** ** Alias resolution *)

Lemma rename_In (a canonical : string) (cols : list string) :
  In a cols -> In canonical (rename a canonical cols).
Proof.
  unfold rename. intros Hin. apply in_map_iff. exists a.
  split; [now rewrite String.eqb_refl | exact Hin].
Qed.

Lemma rename_first_timestamp (alts cols : list string) :
  (exists a, In a alts /\ In a cols) ->
  In "timestamp"%string (rename_first "timestamp" alts cols).
Proof.
  induction alts as [| a alts IH]; simpl; [intros [a [[] _]] |].
  destruct (mem a cols) eqn:Hm.
  - intros _. apply rename_In. now apply mem_In.
  - intros [b [[<- | Hb] Hcols]]; [apply not_mem_In in Hm; contradiction |].
    apply IH. now exists b.
Qed.

Lemma rename_absent (a canonical : string) (cols : list string) :
  ~ In a cols -> rename a canonical cols = cols.
Proof.
  unfold rename. intros Hni. rewrite <- (map_id cols) at 2.
  apply map_ext_in. intros c Hc.
  destruct (String.eqb_spec c a) as [-> | _]; [contradiction | reflexivity].
Qed.

Lemma rename_first_absent (canonical : string) (alts cols : list string) :
  (forall a, In a alts -> ~ In a cols) ->
  rename_first canonical alts cols = cols.
Proof.
  induction alts as [| a alts IH]; simpl; [reflexivity |].
  intros Hnone.
  assert (Hm : mem a cols = false) by (apply not_mem_In, Hnone; now left).
  rewrite Hm. apply IH. intros b Hb. apply Hnone. now right.
Qed.

Lemma rename_first_length (canonical : string) (alts cols : list string) :
  List.length (rename_first canonical alts cols) = List.length cols.
Proof.
  induction alts as [| a alts IH]; simpl; [reflexivity |].
  destruct (mem a cols); [apply length_map | exact IH].
Qed.

Lemma resolve_unfold (cols : list string) :
  fold_left apply_alias aliases cols
  = if mem "timestamp" cols then cols
    else rename_first "timestamp"
           ["timestamp"; "time"; "datetime"; "event_time"; "date_time"]%string
           cols.
Proof. reflexivity. Qed.

Lemma resolve_timestamp_iff (cols : list string) :
  In "timestamp"%string (fold_left apply_alias aliases cols)
  <-> exists a, In a ["timestamp"; "time"; "datetime"; "event_time";
                      "date_time"]%string
                /\ In a cols.
Proof.
  rewrite resolve_unfold. destruct (mem "timestamp" cols) eqn:Hm.
  - apply mem_In in Hm. split; [| intros _; exact Hm].
    intros _. exists "timestamp"%string. split; [now left | exact Hm].
  - split; [| apply rename_first_timestamp].
    intros Hin.
    destruct (existsb (fun a => mem a cols)
                      ["timestamp"; "time"; "datetime"; "event_time";
                       "date_time"]%string) eqn:Hex.
    + apply existsb_exists in Hex. destruct Hex as [a [Ha Hmem]].
      exists a. split; [exact Ha | now apply mem_In].
    + exfalso. apply not_mem_In in Hm. apply Hm.
      rewrite rename_first_absent in Hin; [exact Hin |].
      intros a Ha Hcol. rewrite <- not_true_iff_false in Hex. apply Hex.
      apply existsb_exists. exists a. split; [exact Ha | now apply mem_In].
Qed.

Lemma resolve_idempotent (cols : list string) :
  fold_left apply_alias aliases (fold_left apply_alias aliases cols)
  = fold_left apply_alias aliases cols.
Proof.
  rewrite (resolve_unfold (fold_left apply_alias aliases cols)).
  destruct (mem "timestamp" (fold_left apply_alias aliases cols)) eqn:Hm;
    [reflexivity |].
  apply rename_first_absent. intros a Ha Hcol.
  apply not_mem_In in Hm. apply Hm.
  apply resolve_timestamp_iff.
  rewrite resolve_unfold in Hcol.
  destruct (mem "timestamp" cols) eqn:Hm0; [now exists a |].
  destruct (existsb (fun a => mem a cols)
                    ["timestamp"; "time"; "datetime"; "event_time";
                     "date_time"]%string) eqn:Hex.
  - apply existsb_exists in Hex. destruct Hex as [b [Hb Hmem]].
    exists b. split; [exact Hb | now apply mem_In].
  - rewrite rename_first_absent in Hcol; [now exists a |].
    intros b Hb Hcolb. rewrite <- not_true_iff_false in Hex. apply Hex.
    apply existsb_exists. exists b. split; [exact Hb | now apply mem_In].
Qed.

Lemma apply_aliases_twice (df : raw_frame) :
  _apply_aliases (_apply_aliases df) = _apply_aliases df.
Proof.
  unfold _apply_aliases. cbn [columns data]. now rewrite resolve_idempotent.
Qed.

(** X1: alias resolution is idempotent, keeps the rows and the number of
    columns, and afterwards the table has a [timestamp] column exactly when
    it had a column named by one of the five candidates before. *)
Theorem apply_aliases_idempotent (df : raw_frame) :
  _apply_aliases (_apply_aliases df) = _apply_aliases df
  /\ data (_apply_aliases df) = data df
  /\ List.length (columns (_apply_aliases df)) = List.length (columns df)
  /\ (In "timestamp"%string (columns (_apply_aliases df))
      <-> exists a, In a ["timestamp"; "time"; "datetime"; "event_time";
                          "date_time"]%string
                    /\ In a (columns df)).
Proof.
  split; [| split; [reflexivity | split]].
  - apply apply_aliases_twice.
  - unfold _apply_aliases. cbn [columns]. rewrite resolve_unfold.
    destruct (mem "timestamp" (columns df)); [reflexivity |].
    apply rename_first_length.
  - apply resolve_timestamp_iff.
Qed.

(** ** Loader *)

Lemma index_of_absent (name : string) (cols : list string) :
  ~ In name cols -> index_of name cols = None.
Proof.
  induction cols as [| c cols IH]; simpl; [reflexivity |].
  intros Hni. destruct (String.eqb_spec c name) as [-> | _].
  - exfalso. apply Hni. now left.
  - rewrite IH; [reflexivity |]. intros H. apply Hni. now right.
Qed.

Lemma backfill_length (df : list usage_record) :
  List.length (backfill df) = List.length df.
Proof. rewrite backfill_rowwise. apply length_map. Qed.

Lemma ts_fold_some (pick : Z -> Z -> Z) (l : list usage_record) (acc : option Z) :
  acc <> None \/ (exists r, In r l /\ timestamp r <> None) ->
  fold_left (ts_step pick) l acc <> None.
Proof.
  revert acc. induction l as [| r l IH]; intros acc; simpl.
  - intros [H | [r [[] _]]]. exact H.
  - intros H. apply IH. unfold ts_step.
    destruct (timestamp r) as [t |] eqn:Ht.
    + left. destruct acc; discriminate.
    + destruct H as [H | [r' [[<- | Hin] Hr']]];
        [now left | congruence | right; now exists r'].
Qed.

Lemma ts_min_bound (l : list usage_record) (acc : option Z) (m : Z) :
  fold_left (ts_step Z.min) l acc = Some m ->
  (forall a, acc = Some a -> m <= a)
  /\ (forall r t, In r l -> timestamp r = Some t -> m <= t).
Proof.
  revert acc. induction l as [| r l IH]; intros acc; simpl.
  - intros ->. split; [intros a [= ->]; lia | intros r t []].
  - intros H. apply IH in H. destruct H as [Hacc Hl]. unfold ts_step in Hacc.
    split.
    + intros a ->. destruct (timestamp r) as [t |];
        [specialize (Hacc _ eq_refl); lia | now apply Hacc].
    + intros r' t [<- | Hin] Ht; [| now apply Hl with r'].
      rewrite Ht in Hacc. destruct acc as [a |];
        specialize (Hacc _ eq_refl); lia.
Qed.

Lemma ts_max_bound (l : list usage_record) (acc : option Z) (m : Z) :
  fold_left (ts_step Z.max) l acc = Some m ->
  (forall a, acc = Some a -> a <= m)
  /\ (forall r t, In r l -> timestamp r = Some t -> t <= m).
Proof.
  revert acc. induction l as [| r l IH]; intros acc; simpl.
  - intros ->. split; [intros a [= ->]; lia | intros r t []].
  - intros H. apply IH in H. destruct H as [Hacc Hl]. unfold ts_step in Hacc.
    split.
    + intros a ->. destruct (timestamp r) as [t |];
        [specialize (Hacc _ eq_refl); lia | now apply Hacc].
    + intros r' t [<- | Hin] Ht; [| now apply Hl with r'].
      rewrite Ht in Hacc. destruct acc as [a |];
        specialize (Hacc _ eq_refl); lia.
Qed.

Section LoaderMore.
Variable parse_datetime : string -> option Z.
Variable parse_numeric : string -> Num.t.

Local Abbreviation load := (read_network_csv parse_datetime parse_numeric).

Lemma load_Ok_inv (csv : raw_frame) (required_cols : list string)
    (records : list usage_record) :
  load csv required_cols = Ok records ->
  exists ts,
    column (_apply_aliases csv) "timestamp" = Ok ts
    /\ forallb (fun row => is_none (to_datetime parse_datetime (at_column ts row)))
               (data csv) = false
    /\ List.length records = List.length (data csv)
    /\ map timestamp records
       = map (fun row => to_datetime parse_datetime (at_column ts row)) (data csv).
Proof.
  unfold read_network_csv.
  destruct (filter _ required_cols); [| discriminate].
  destruct (column (_apply_aliases csv) "timestamp") as [ts |]; [| discriminate].
  cbv [bind]. change (data (_apply_aliases csv)) with (data csv).
  destruct (forallb _ (data csv)) eqn:Hf; [discriminate |].
  repeat match goal with
         | |- context [column ?d ?n] => destruct (column d n); [| discriminate]
         end.
  intros H. exists ts. split; [reflexivity |]. split; [exact Hf |].
  destruct (mem "utilization_pct" (columns (_apply_aliases csv)));
    injection H as <-;
    rewrite ?backfill_length, ?backfill_timestamps, length_map, map_map;
    split; reflexivity.
Qed.

(** X2: a load that succeeds returns one record per row of the file, in
    the order of the file (no row is dropped for a value that does not
    parse), and at least one record has a timestamp: dropping the records
    without a timestamp (line 138) leaves a table that is not empty, and
    the default filters of the sidebar exist. *)
Theorem load_keeps_every_row (csv : raw_frame) (required_cols : list string)
    (records : list usage_record)
    (Hload : load csv required_cols = Ok records) :
  List.length records = List.length (data csv)
  /\ dropna_timestamp records <> []
  /\ exists f, default_filters (dropna_timestamp records) = Some f.
Proof.
  destruct (load_Ok_inv _ _ Hload) as [ts [_ [Hsome [Hlen Hts]]]].
  assert (Hkept : dropna_timestamp records <> []).
  { assert (Hex : exists t, In (Some t) (map timestamp records)).
    { rewrite Hts. apply not_true_iff_false in Hsome.
      rewrite forallb_forall in Hsome.
      destruct (existsb (fun row => negb (is_none (to_datetime parse_datetime
                                                     (at_column ts row))))
                        (data csv)) eqn:Hex.
      - apply existsb_exists in Hex. destruct Hex as [row [Hrow Hn]].
        destruct (to_datetime parse_datetime (at_column ts row)) as [t |] eqn:Ht;
          [| discriminate].
        exists t. apply in_map_iff. now exists row.
      - exfalso. apply Hsome. intros row Hrow.
        apply not_true_iff_false in Hex.
        destruct (is_none _) eqn:Hn; [reflexivity |].
        exfalso. apply Hex. apply existsb_exists. exists row.
        split; [exact Hrow | now rewrite Hn]. }
    destruct Hex as [t Ht]. apply in_map_iff in Ht.
    destruct Ht as [r [Hr Hin]]. intros Hnil.
    assert (Hr' : In r (dropna_timestamp records))
      by (apply filter_In; split; [exact Hin | now rewrite Hr]).
    rewrite Hnil in Hr'. destruct Hr'. }
  split; [exact Hlen |]. split; [exact Hkept |].
  unfold default_filters, ts_min, ts_max, ts_fold.
  assert (Hany : @None Z <> None
             \/ exists r, In r (dropna_timestamp records) /\ timestamp r <> None).
  { right. destruct (dropna_timestamp records) as [| r l] eqn:Hd;
      [contradiction |].
    exists r. split; [now left |].
    assert (Hin : In r (dropna_timestamp records)) by (rewrite Hd; now left).
    apply filter_In in Hin. destruct Hin as [_ Hn].
    destruct (timestamp r); discriminate. }
  pose proof (ts_fold_some Z.min _ Hany) as Hmin.
  pose proof (ts_fold_some Z.max _ Hany) as Hmax.
  destruct (fold_left (ts_step Z.min) _ None) as [lo |]; [| contradiction].
  destruct (fold_left (ts_step Z.max) _ None) as [hi |]; [| contradiction].
  eauto.
Qed.

End LoaderMore.

Lemma load_keeps_every_row_witness :
  exists records,
    read_network_csv demo_datetime demo_numeric demo_csv REQUIRED_COLS = Ok records
    /\ List.length records = List.length (data demo_csv)
    /\ dropna_timestamp records <> []
    /\ exists f, default_filters (dropna_timestamp records) = Some f.
Proof.
  eexists. split; [vm_compute; reflexivity |].
  apply (load_keeps_every_row demo_datetime demo_numeric demo_csv REQUIRED_COLS).
  vm_compute. reflexivity.
Defined.

(** X3: the schema check is the loader's only guard.  When the caller's
    required set is satisfied but the table has no [timestamp] column
    after alias resolution, the loader fails with [KeyError("timestamp")]
    at line 57, not with a schema error. *)
Theorem load_without_timestamp_column
    (parse_datetime : string -> option Z) (parse_numeric : string -> Num.t)
    (csv : raw_frame) (required_cols : list string)
    (Hschema : forall c, In c required_cols -> In c (columns (_apply_aliases csv)))
    (Hnone : ~ In "timestamp"%string (columns (_apply_aliases csv))) :
  read_network_csv parse_datetime parse_numeric csv required_cols
  = Err (KeyError "timestamp").
Proof.
  unfold read_network_csv.
  rewrite (proj2 (missing_nil_iff _ _) Hschema).
  unfold column. rewrite (index_of_absent _ _ Hnone). reflexivity.
Qed.

Lemma load_without_timestamp_column_witness :
  read_network_csv demo_datetime demo_numeric no_timestamp_csv ["region"%string]
  = Err (KeyError "timestamp").
Proof.
  apply (load_without_timestamp_column demo_datetime demo_numeric
           no_timestamp_csv ["region"%string]).
  - intros c [<- | []]. vm_compute. tauto.
  - vm_compute. intuition discriminate.
Defined.

(** X4: loading a table whose header has already been through alias
    resolution gives the same outcome, result or error, as loading the
    table itself. *)
Theorem load_after_aliases
    (parse_datetime : string -> option Z) (parse_numeric : string -> Num.t)
    (csv : raw_frame) (required_cols : list string) :
  read_network_csv parse_datetime parse_numeric (_apply_aliases csv) required_cols
  = read_network_csv parse_datetime parse_numeric csv required_cols.
Proof.
  unfold read_network_csv. now rewrite apply_aliases_twice.
Qed.

(** ** Backfill *)

Lemma not_ltb_leb (x y : Num.t) :
  Num.isna x = false -> Num.isna y = false ->
  Num.ltb x y = false -> Num.leb y x = true.
Proof.
  intros Hx Hy. unfold Num.ltb.
  destruct (leb_total_notna x y Hx Hy) as [H | H]; [| now intros _].
  rewrite H. simpl. now rewrite negb_false_iff.
Qed.

Lemma clip_percentage (x : Num.t) :
  Num.isna x = false ->
  is_percentage (Num.clip (Num.of_Z 0) (Num.of_Z 100) x).
Proof.
  intros Hx. unfold Num.clip, is_percentage. rewrite Hx.
  destruct (Num.ltb x (Num.of_Z 0)) eqn:Hlo; [split; reflexivity |].
  destruct (Num.ltb (Num.of_Z 100) x) eqn:Hhi; [split; reflexivity |].
  split; apply not_ltb_leb; auto.
Qed.

Lemma clip_isna (lo hi x : Num.t) :
  Num.isna lo = false -> Num.isna hi = false ->
  Num.isna (Num.clip lo hi x) = Num.isna x.
Proof.
  intros Hlo Hhi. unfold Num.clip.
  destruct (Num.isna x) eqn:Hx; [exact Hx |].
  destruct (Num.ltb x lo); [exact Hlo |].
  destruct (Num.ltb hi x); [exact Hhi | exact Hx].
Qed.

Lemma backfill_row_twice (r : usage_record) :
  backfill_row (backfill_row r) = backfill_row r.
Proof.
  unfold backfill_row.
  destruct (Num.isna (utilization_pct r)) eqn:Hna; [| now rewrite Hna].
  cbn [utilization_pct set_utilization_pct].
  destruct (Num.isna (Num.clip (Num.of_Z 0) (Num.of_Z 100) (calc r))) eqn:Hc;
    [| reflexivity].
  unfold set_utilization_pct, calc. reflexivity.
Qed.

(** X5: the backfill keeps every row in place; a utilization that was
    present is left as it was, and one that was missing is, after the
    backfill, either still missing or a percentage between 0 and 100.
    Running the backfill again changes nothing. *)
Theorem backfill_fills_percentages (df : list usage_record) :
  Forall2 (fun r r' =>
             (Num.isna (utilization_pct r) = false -> r' = r)
             /\ (Num.isna (utilization_pct r) = true ->
                 r' = set_utilization_pct r (utilization_pct r')
                 /\ (Num.isna (utilization_pct r') = true
                     \/ is_percentage (utilization_pct r'))))
          df (backfill df)
  /\ backfill (backfill df) = backfill df.
Proof.
  rewrite !backfill_rowwise. split.
  - induction df as [| r df IH]; simpl; constructor; [| exact IH].
    unfold backfill_row. split.
    + now intros ->.
    + intros Hna. rewrite Hna. cbn [utilization_pct set_utilization_pct].
      split; [reflexivity |].
      destruct (Num.isna (calc r)) eqn:Hc.
      * left. rewrite clip_isna by reflexivity. exact Hc.
      * right. now apply clip_percentage.
  - rewrite map_map. apply map_ext. apply backfill_row_twice.
Qed.

Lemma fin_zero_iff (q : Q) :
  Num.eqb (Num.Fin q) (Num.of_Z 0) = true <-> Qnum q = 0.
Proof.
  unfold Num.eqb, Num.of_Z, Num.leb, Qle_bool. simpl.
  rewrite andb_true_iff, !Z.leb_le. lia.
Qed.

Lemma Qeq_bool_zero (q : Q) : Qeq_bool q 0 = true <-> Qnum q = 0.
Proof. unfold Qeq_bool. simpl. rewrite Z.eqb_eq. lia. Qed.

(** X6: for finite or missing capacity and throughput, a utilization that
    was missing is still missing after the backfill exactly when the
    capacity is missing, the throughput is missing, or both are zero; a
    capacity of zero with a throughput that is not zero gives a value. *)
Theorem backfill_null_exactly (r : usage_record)
    (Hna : Num.isna (utilization_pct r) = true)
    (Hcap : is_infinite (capacity_mbps r) = false)
    (Hthr : is_infinite (throughput_mbps r) = false) :
  Num.isna (utilization_pct (backfill_row r)) = true
  <-> Num.isna (capacity_mbps r) = true
      \/ Num.isna (throughput_mbps r) = true
      \/ (Num.eqb (capacity_mbps r) (Num.of_Z 0) = true
          /\ Num.eqb (throughput_mbps r) (Num.of_Z 0) = true).
Proof.
  unfold backfill_row. rewrite Hna. cbn [utilization_pct set_utilization_pct].
  rewrite clip_isna by reflexivity. unfold calc.
  destruct (capacity_mbps r) as [| | c |]; try discriminate;
    destruct (throughput_mbps r) as [| | a |]; try discriminate;
    try (split; [intros _; auto | reflexivity]).
  rewrite !fin_zero_iff. unfold Num.div.
  destruct (Qeq_bool c 0) eqn:Hc.
  - apply Qeq_bool_zero in Hc. unfold Num.sgn.
    destruct (Qnum a) eqn:Ha; simpl.
    + split; [intros _; right; right; split; [exact Hc | reflexivity] | reflexivity].
    + split; [discriminate | intros [H | [H | [_ H]]]; discriminate].
    + split; [discriminate | intros [H | [H | [_ H]]]; discriminate].
  - simpl. split; [discriminate |].
    intros [H | [H | [H _]]]; try discriminate.
    apply Qeq_bool_zero in H. congruence.
Qed.

Lemma backfill_null_exactly_witness :
  Num.isna (utilization_pct (backfill_row no_throughput_record)) = true
  <-> Num.isna (capacity_mbps no_throughput_record) = true
      \/ Num.isna (throughput_mbps no_throughput_record) = true
      \/ (Num.eqb (capacity_mbps no_throughput_record) (Num.of_Z 0) = true
          /\ Num.eqb (throughput_mbps no_throughput_record) (Num.of_Z 0) = true).
Proof.
  apply (backfill_null_exactly no_throughput_record); reflexivity.
Defined.

(** ** Filters of the sidebar *)

Lemma filter_all {A : Type} (p : A -> bool) (l : list A) :
  (forall a, In a l -> p a = true) -> filter p l = l.
Proof.
  induction l as [| a l IH]; simpl; intros H; [reflexivity |].
  rewrite (H a (or_introl eq_refl)). f_equal. apply IH.
  intros b Hb. apply H. now right.
Qed.

Lemma filter_implied {A : Type} (p q : A -> bool) (l : list A) :
  (forall a, p a = true -> q a = true) ->
  filter p (filter q l) = filter p l.
Proof.
  intros Himp. induction l as [| a l IH]; simpl; [reflexivity |].
  destruct (q a) eqn:Hq; simpl; [now rewrite IH |].
  destruct (p a) eqn:Hp; [| exact IH].
  rewrite (Himp a Hp) in Hq. discriminate.
Qed.

(** X7: a row without a timestamp never passes the filter, whatever the
    filter specification; dropping such rows first (line 138) does not
    change the filter's result. *)
Theorem filter_drops_missing_timestamps (f : filter_spec) (df : list usage_record) :
  (forall r, In r (apply_filters f df) -> timestamp r <> None)
  /\ apply_filters f (dropna_timestamp df) = apply_filters f df.
Proof.
  assert (Hts : forall r, mask f r = true -> timestamp r <> None).
  { intros r Hm. apply mask_true_iff in Hm.
    destruct Hm as [[t [Ht _]] _]. congruence. }
  split.
  - intros r Hr. apply filter_In in Hr. now apply Hts.
  - unfold apply_filters, dropna_timestamp. apply filter_implied.
    intros r Hm. apply Hts in Hm. now destruct (timestamp r).
Qed.

(** X8: with the filters as the sidebar first shows them (the date range
    from the day of the earliest timestamp to the day of the latest, no
    selection), a table whose timestamps are all present and fall on whole
    seconds passes the filter unchanged. *)
Theorem default_filters_keep_whole_seconds
    (df : list usage_record) (f : filter_spec)
    (Hdefault : default_filters df = Some f)
    (Hseconds : forall r, In r df ->
                  exists t, timestamp r = Some t /\ t mod NS_PER_SECOND = 0) :
  apply_filters f df = df.
Proof.
  unfold default_filters, ts_min, ts_max, ts_fold in Hdefault.
  destruct (fold_left (ts_step Z.min) df None) as [lo |] eqn:Hlo; [| discriminate].
  destruct (fold_left (ts_step Z.max) df None) as [hi |] eqn:Hhi; [| discriminate].
  injection Hdefault as <-.
  apply ts_min_bound in Hlo. destruct Hlo as [_ Hlo].
  apply ts_max_bound in Hhi. destruct Hhi as [_ Hhi].
  unfold apply_filters. apply filter_all. intros r Hr.
  apply mask_true_iff. split; [| repeat split; now left].
  destruct (Hseconds r Hr) as [t [Ht Hsec]].
  exists t. split; [exact Ht |]. cbn [date_range fst snd].
  specialize (Hlo r t Hr Ht). specialize (Hhi r t Hr Ht).
  unfold date_to_datetime.
  assert (HD : 0 < NS_PER_DAY) by (unfold NS_PER_DAY, NS_PER_SECOND; lia).
  pose proof (Z.mul_div_le lo NS_PER_DAY HD) as H1.
  pose proof (Z.mul_succ_div_gt hi NS_PER_DAY HD) as H2.
  pose proof (Z_div_mod_eq_full t NS_PER_SECOND) as Hdm. rewrite Hsec in Hdm.
  unfold NS_PER_DAY in *.
  set (S := NS_PER_SECOND) in *.
  assert (HS : S = 1000000000) by reflexivity.
  set (k := t / S) in *. set (d := hi / (86400 * S)) in *.
  set (e := lo / (86400 * S)) in *.
  split; nia.
Qed.

Lemma default_filters_keep_whole_seconds_witness :
  exists f, default_filters evening_table = Some f
            /\ apply_filters f evening_table = evening_table.
Proof.
  eexists. split; [reflexivity |].
  apply default_filters_keep_whole_seconds; [reflexivity |].
  intros r Hr. vm_compute in Hr.
  repeat (destruct Hr as [<- | Hr]; [eexists; split; reflexivity |]).
  destruct Hr.
Defined.

Lemma options_In (d : dimension) (df : list usage_record) (s : string) :
  In s (options d df) <-> exists r, In r df /\ value d r = Some s.
Proof. unfold options. rewrite sorted_set_In. apply present_keys_In. Qed.

(** X9: the choices a multiselect offers are the distinct values present
    in its column, in ascending order.  With every offered choice of a
    dimension selected (and at least one choice offered), the filter keeps
    exactly the rows that have a value in that dimension and satisfy the
    date predicate and the other dimensions' predicates. *)
Theorem select_every_option
    (d : dimension) (f : filter_spec) (df : list usage_record)
    (Hsome : options d df <> [])
    (Hsel : selection d f = options d df) :
  ascending String.compare (options d df)
  /\ (forall s, In s (options d df) <-> exists r, In r df /\ value d r = Some s)
  /\ (forall r, In r (apply_filters f df)
                <-> In r df /\ within_range f r /\ value d r <> None
                    /\ forall d', d' <> d -> passes (selection d' f) (value d' r)).
Proof.
  split; [apply sorted_set_ascending |]. split; [apply options_In |].
  intros r. rewrite In_apply_filters, categorical_dimensions. split.
  - intros [Hin [Hr Hall]]. repeat split; try assumption.
    + destruct (Hall d) as [Hempty | [s [Hs _]]]; [congruence | congruence].
    + intros d' _. apply Hall.
  - intros [Hin [Hr [Hval Hothers]]]. repeat split; try assumption.
    intros d'. destruct (value d r) as [s |] eqn:Hs; [| contradiction].
    assert (Hd : passes (selection d f) (value d r)).
    { right. exists s. split; [exact Hs |]. rewrite Hsel.
      apply options_In. now exists r. }
    destruct d, d'; try exact Hd; apply Hothers; discriminate.
Qed.

Lemma select_every_option_witness :
  ascending String.compare (options Site evening_table)
  /\ (In (sample (at_time 2025 1 1 20 0 0) (Some "S2"%string)
                (Num.of_Z 85) (Num.of_Z 40))
         (apply_filters all_sites_selected evening_table)
      <-> In (sample (at_time 2025 1 1 20 0 0) (Some "S2"%string)
                     (Num.of_Z 85) (Num.of_Z 40))
             evening_table
          /\ within_range all_sites_selected
               (sample (at_time 2025 1 1 20 0 0) (Some "S2"%string)
                       (Num.of_Z 85) (Num.of_Z 40))
          /\ value Site (sample (at_time 2025 1 1 20 0 0) (Some "S2"%string)
                                (Num.of_Z 85) (Num.of_Z 40)) <> None
          /\ forall d', d' <> Site ->
                passes (selection d' all_sites_selected)
                       (value d' (sample (at_time 2025 1 1 20 0 0)
                                         (Some "S2"%string)
                                         (Num.of_Z 85) (Num.of_Z 40)))).
Proof.
  assert (Hsome : options Site evening_table <> [])
    by (vm_compute; discriminate).
  pose proof (select_every_option Site all_sites_selected evening_table
                Hsome eq_refl) as [Hasc [_ Hrows]].
  split; [exact Hasc | apply Hrows].
Defined.

(** ** More on stable sorting *)

Section SortMore.
Context {A : Type} (leb : A -> A -> bool).

Lemma insert_front (x : A) (l : list A) :
  Forall (fun y => leb x y = true) l -> insert leb x l = x :: l.
Proof.
  destruct l as [| y l]; simpl; [reflexivity |].
  intros H. now rewrite (Forall_inv H).
Qed.

Lemma sort_of_sorted (l : list A) :
  StronglySorted (fun a b => leb a b = true) l -> sort leb l = l.
Proof.
  unfold sort. induction 1 as [| x l Hs IH Hx]; simpl; [reflexivity |].
  rewrite IH. now apply insert_front.
Qed.

Context `{!PreorderOK leb}.

Lemma insert_filter (p : A -> bool) (x : A) (l : list A) :
  StronglySorted (fun a b => leb a b = true) l ->
  filter p (insert leb x l)
  = if p x then insert leb x (filter p l) else filter p l.
Proof.
  induction 1 as [| y l Hs IH Hy]; simpl.
  - now destruct (p x).
  - destruct (leb x y) eqn:Hxy.
    + simpl. destruct (p x) eqn:Hpx; [| reflexivity].
      symmetry. apply insert_front.
      apply Forall_forall. intros z Hz.
      assert (Hz' : In z (y :: l))
        by (change (filter p (y :: l)) with
              (if p y then y :: filter p l else filter p l) in *;
            destruct (p y); [destruct Hz as [<- | Hz]; [now left |] |];
            right; apply filter_In in Hz; apply Hz).
      destruct Hz' as [<- | Hz']; [exact Hxy |].
      rewrite Forall_forall in Hy. apply leb_trans with y; auto.
    + simpl. rewrite IH.
      destruct (p y) eqn:Hpy; destruct (p x) eqn:Hpx; simpl;
        rewrite ?Hxy; reflexivity.
Qed.

Lemma sort_filter (p : A -> bool) (l : list A) :
  sort leb (filter p l) = filter p (sort leb l).
Proof.
  induction l as [| x l IH]; simpl; [reflexivity |].
  change (fold_right (insert leb) [] l) with (sort leb l).
  rewrite insert_filter by (apply sort_sorted; assumption).
  destruct (p x); simpl; [| exact IH].
  change (fold_right (insert leb) [] (filter p l)) with (sort leb (filter p l)).
  now rewrite IH.
Qed.

End SortMore.

Lemma sort_map {A B : Type} (leb : A -> A -> bool) (leb' : B -> B -> bool)
    (f : A -> B) (l : list A) :
  (forall a b, leb' (f a) (f b) = leb a b) ->
  sort leb' (map f l) = map f (sort leb l).
Proof.
  intros Hf. unfold sort. induction l as [| x l IH]; simpl; [reflexivity |].
  rewrite IH. generalize (fold_right (insert leb) [] l). intros s.
  induction s as [| y s IHs]; simpl; [reflexivity |].
  rewrite Hf. destruct (leb x y); simpl; [reflexivity | now rewrite IHs].
Qed.

Lemma filter_swap {A : Type} (p q : A -> bool) (l : list A) :
  filter p (filter q l) = filter q (filter p l).
Proof.
  induction l as [| a l IH]; simpl; [reflexivity |].
  destruct (p a) eqn:Hp; destruct (q a) eqn:Hq; simpl;
    rewrite ?Hp, ?Hq, IH; reflexivity.
Qed.

Lemma filter_map_pre {A B : Type} (f : A -> B) (p : B -> bool) (l : list A) :
  filter p (map f l) = map f (filter (fun a => p (f a)) l).
Proof. symmetry. apply filter_map_commute. Qed.

#[export] Instance view_order_PreorderOK : PreorderOK view_order.
Proof.
  unfold view_order.
  exact (@lexicographic_PreorderOK _ _ _
           (on_PreorderOK cc_utilization_pct (leb := Num.desc_leb))
           (on_PreorderOK cc_latency_ms (leb := Num.desc_leb))).
Qed.

(** ** Prime-time congestion view *)

Lemma filter_andb {A : Type} (p q : A -> bool) (l : list A) :
  filter p (filter q l) = filter (fun a => q a && p a) l.
Proof.
  induction l as [| a l IH]; simpl; [reflexivity |].
  destruct (q a); simpl; [destruct (p a) |]; now rewrite IH.
Qed.

Lemma view_order_not_below (a b : congested_row) :
  Num.isna (cc_utilization_pct a) = false ->
  Num.isna (cc_utilization_pct b) = false ->
  view_order a b = true -> not_below a b.
Proof.
  unfold view_order, not_below, Num.geb. intros Ha Hb.
  assert (Hd : forall x y, Num.isna x = false -> Num.isna y = false ->
                           Num.desc_leb x y = Num.leb y x)
    by (intros [] []; simpl; try discriminate; reflexivity).
  rewrite (Hd _ _ Ha Hb), (Hd _ _ Hb Ha).
  unfold Num.gtb, Num.ltb, Num.eqb.
  destruct (Num.leb (cc_utilization_pct b) (cc_utilization_pct a)); [| discriminate].
  destruct (Num.leb (cc_utilization_pct a) (cc_utilization_pct b)); simpl; [| now left].
  intros H. right. split; [reflexivity |]. now apply desc_leb_iff.
Qed.

Lemma with_hour_filter (p : usage_record * option Z -> bool) (df_f : list usage_record) :
  filter p (with_hour df_f)
  = with_hour (filter (fun r => p (r, dt_hour (timestamp r))) df_f).
Proof. unfold with_hour. apply filter_map_pre. Qed.

Lemma congested_view_unfold (util_threshold : Z) (df_f : list usage_record) :
  congested_view util_threshold df_f
  = sort view_order
      (map project_record
           (filter (fun r => in_prime_time (dt_hour (timestamp r))
                             && Num.geb (utilization_pct r) (Num.of_Z util_threshold))
                   df_f)).
Proof.
  unfold congested_view. cbv zeta.
  rewrite filter_andb, with_hour_filter. unfold with_hour.
  now rewrite map_map.
Qed.

(** X10: for every threshold of the slider, the prime-time view consists
    exactly of the rows whose hour of day is between 19 and 23 and whose
    utilization is at least the threshold, projected to the eight columns
    of a congestion row; it is sorted non-increasing on (utilization,
    latency), a missing latency last within its utilization.  A row
    without a timestamp or without a utilization is never in the view. *)
Theorem congested_view_exact (util_threshold : Z) (df_f : list usage_record) :
  Permutation
    (congested_view util_threshold df_f)
    (map project_record
         (filter (fun r => in_prime_time (dt_hour (timestamp r))
                           && Num.geb (utilization_pct r) (Num.of_Z util_threshold))
                 df_f))
  /\ StronglySorted not_below (congested_view util_threshold df_f)
  /\ (forall c, In c (congested_view util_threshold df_f) ->
        cc_timestamp c <> None /\ Num.isna (cc_utilization_pct c) = false).
Proof.
  rewrite congested_view_unfold.
  set (kept := filter _ df_f).
  assert (Hkept : forall c, In c (map project_record kept) ->
                    cc_timestamp c <> None /\ Num.isna (cc_utilization_pct c) = false).
  { intros c Hc. apply in_map_iff in Hc. destruct Hc as [r [<- Hr]].
    apply filter_In in Hr. destruct Hr as [_ Hr].
    apply andb_true_iff in Hr. destruct Hr as [Hprime Hge]. simpl. split.
    - destruct (timestamp r); [discriminate | discriminate].
    - unfold Num.geb in Hge. now apply leb_notna in Hge. }
  split; [apply sort_Permutation |]. split.
  - rewrite <- (map_id (sort view_order (map project_record kept))).
    apply StronglySorted_map with (R := fun a b => view_order a b = true).
    + intros a b Ha Hb. apply sort_In in Ha, Hb.
      apply view_order_not_below; [now apply Hkept | now apply Hkept].
    + apply sort_sorted. typeclasses eauto.
  - intros c Hc. apply sort_In in Hc. now apply Hkept.
Qed.

(** X11: at the threshold 80 the prime-time view is the congestion table
    of the engine, computed on the same table, restricted to the rows
    whose hour of day is between 19 and 23, in the same order. *)
Theorem congested_view_at_80 (df_f : list usage_record) :
  exists t, compute_aggregations (dashboard_frame df_f) = Ok t
  /\ congested_view 80 df_f
     = filter (fun c => in_prime_time (dt_hour (cc_timestamp c)))
              (congested_cells t).
Proof.
  destruct (compute_aggregations_tables (dashboard_frame df_f)) as [sh [_ Ht]].
  eexists. split; [exact Ht |]. cbn [congested_cells].
  rewrite congested_view_unfold.
  set (mk := fun r : usage_record =>
               {| rec := r; date := dt_date (timestamp r);
                  hour := dt_hour (timestamp r) |}).
  assert (Hw : working (dashboard_frame df_f) = map mk df_f)
    by (unfold dashboard_frame, working, with_hour; now rewrite map_map).
  rewrite Hw.
  rewrite filter_map_pre.
  rewrite <- (sort_filter (leb := congested_order)) by typeclasses eauto.
  rewrite !filter_map_pre, filter_andb.
  rewrite <- (sort_map congested_order view_order project) by reflexivity.
  rewrite map_map.
  change (fun x : usage_record => project (mk x)) with project_record.
  do 2 f_equal. apply filter_ext. intros r. apply andb_comm.
Qed.

Lemma of_Z_leb (a b : Z) : a <= b -> Num.leb (Num.of_Z a) (Num.of_Z b) = true.
Proof.
  intros H. unfold Num.of_Z, Num.leb, Qle_bool. simpl. apply Z.leb_le. lia.
Qed.

(** X12: raising the threshold only removes rows from the prime-time
    view: the view at a higher threshold is the view at a lower one
    restricted to the rows that reach the higher threshold, in the same
    order. *)
Theorem congested_view_monotone (low high : Z) (df_f : list usage_record)
    (Hle : low <= high) :
  congested_view high df_f
  = filter (fun c => Num.geb (cc_utilization_pct c) (Num.of_Z high))
           (congested_view low df_f).
Proof.
  rewrite !congested_view_unfold.
  rewrite <- (sort_filter (leb := view_order)) by typeclasses eauto.
  rewrite filter_map_pre, filter_andb. f_equal. f_equal.
  apply filter_ext. intros r. cbn [cc_utilization_pct project_record].
  destruct (in_prime_time (dt_hour (timestamp r)));
    [rewrite !andb_true_l | reflexivity].
  destruct (Num.geb (utilization_pct r) (Num.of_Z high)) eqn:Hhigh;
    [| now rewrite andb_false_r].
  rewrite andb_true_r. symmetry. unfold Num.geb in *.
  apply leb_transitive with (Num.of_Z high); [now apply of_Z_leb | exact Hhigh].
Qed.

Lemma congested_view_monotone_witness :
  congested_view 90 evening_table
  = filter (fun c => Num.geb (cc_utilization_pct c) (Num.of_Z 90))
           (congested_view 80 evening_table).
Proof. apply (@congested_view_monotone 80 90 evening_table). lia. Defined.

(** ** Order and content of the grouped tables *)

Lemma Forall2_map_eq {A B C : Type} (P : A -> B -> Prop) (f : A -> C) (g : B -> C)
    (l : list A) (l' : list B) :
  (forall a b, P a b -> g b = f a) -> Forall2 P l l' -> map g l' = map f l.
Proof.
  intros H. induction 1 as [| a b l l' Hab Hall IH]; simpl; [reflexivity |].
  now rewrite (H a b Hab), IH.
Qed.

Lemma Forall2_In_l {A B : Type} (P : A -> B -> Prop) (l : list A) (l' : list B) (x : A) :
  Forall2 P l l' -> In x l -> exists y, In y l' /\ P x y.
Proof.
  induction 1 as [| a b l l' Hab Hall IH]; simpl; [intros [] |].
  intros [<- | Hx]; [exists b; auto |].
  destruct (IH Hx) as [y [Hy Hp]]. exists y. auto.
Qed.

Lemma site_hour_agg_key (kg : (string * Z) * list arow) (x : site_hour_row) :
  site_hour_agg kg = Ok x ->
  (sh_site_id x, sh_hour x) = fst kg
  /\ sh_avg_util x = Num.mean (col utilization_pct (snd kg)).
Proof.
  destruct kg as [[site h] g]. unfold site_hour_agg.
  destruct (p95 (col utilization_pct g)); simpl; [| discriminate].
  intros [= <-]. split; reflexivity.
Qed.

Lemma groupby_keys {K R : Type} (cmp : K -> K -> comparison)
    (key_of : R -> option K) (rows : list R) :
  map fst (groupby cmp key_of rows) = group_keys cmp key_of rows.
Proof. unfold groupby. rewrite map_map. apply map_id. Qed.

Lemma head1_ascending (seen : list string) (l : list busy_hour_row) :
  StronglySorted (fun a b => busy_order a b = true) l ->
  StronglySorted (fun a b => String.compare (bh_site_id a) (bh_site_id b) = Lt)
                 (head1 seen l).
Proof.
  intros Hs. revert seen.
  induction Hs as [| x l Hs IH Hx]; intros seen; simpl; [constructor |].
  destruct (mem (bh_site_id x) seen); [apply IH |].
  constructor; [apply IH |].
  apply Forall_forall. intros b Hb. apply head1_In in Hb.
  destruct Hb as [Hin Hns].
  rewrite Forall_forall in Hx. specialize (Hx b Hin).
  unfold busy_order in Hx.
  destruct (String.compare (bh_site_id x) (bh_site_id b)) eqn:Hc;
    [| reflexivity | discriminate].
  apply cmp_eq in Hc. exfalso. apply Hns. left. exact Hc.
Qed.

(** X13: the grouped tables come out in ascending key order without
    repeated keys: [site_hour] on (site_id, hour), [site_day] on
    (site_id, date), [hour_of_day] on (hour, tech) and [busy_hour] on
    site_id. *)
Theorem grouped_tables_ascending (input : frame) :
  exists t, compute_aggregations input = Ok t
  /\ ascending site_Z_compare (map (fun x => (sh_site_id x, sh_hour x)) (site_hour t))
  /\ ascending site_Z_compare (map (fun y => (sd_site_id y, sd_date y)) (site_day t))
  /\ ascending Z_string_compare (map (fun z => (hd_hour z, hd_tech z)) (hour_of_day t))
  /\ ascending String.compare (map bh_site_id (busy_hour t)).
Proof.
  destruct (compute_aggregations_tables input) as [sh [Hsh Ht]].
  eexists. split; [exact Ht |].
  cbn [site_hour site_day hour_of_day busy_hour].
  set (df := working input) in *.
  split; [| split; [| split]].
  - rewrite (@Forall2_map_eq _ _ _ _ fst (fun x => (sh_site_id x, sh_hour x)) _ _
               (fun kg x H => proj1 (site_hour_agg_key kg H)) Hsh).
    rewrite groupby_keys. apply group_keys_ascending. typeclasses eauto.
  - rewrite map_map.
    rewrite (map_ext _ fst) by (intros [[s d] g]; reflexivity).
    rewrite groupby_keys. apply group_keys_ascending. typeclasses eauto.
  - rewrite map_map.
    rewrite (map_ext _ fst) by (intros [[h s] g]; reflexivity).
    rewrite groupby_keys. apply group_keys_ascending. typeclasses eauto.
  - unfold ascending.
    apply StronglySorted_map
      with (R := fun a b => String.compare (bh_site_id a) (bh_site_id b) = Lt).
    + intros a b _ _ H. exact H.
    + apply head1_ascending. apply sort_sorted. typeclasses eauto.
Qed.

(** X14: [hour_of_day] has one row for each distinct (hour, tech) pair
    among the rows in which both are present; the row gives the mean
    utilization of the rows of that hour and technology, of which there is
    at least one. *)
Theorem hour_of_day_exact (input : frame) :
  exists t, compute_aggregations input = Ok t
  /\ List.length (hour_of_day t)
     = distinct hour_tech_eq_dec (present_keys hour_tech_key (working input))
  /\ (forall z, In z (hour_of_day t) ->
        let g := hour_tech_group (working input) (hd_hour z) (hd_tech z) in
        g <> []
        /\ hd_utilization_pct z = Num.mean (col utilization_pct g)).
Proof.
  destruct (compute_aggregations_tables input) as [sh [_ Ht]].
  eexists. split; [exact Ht |]. cbn [hour_of_day].
  set (df := working input).
  split.
  - rewrite length_map. apply groupby_length. typeclasses eauto.
  - intros z Hz. apply in_map_iff in Hz. destruct Hz as [[k g] [<- Hkg]].
    unfold groupby in Hkg. apply in_map_iff in Hkg.
    destruct Hkg as [k' [Heq Hk]]. injection Heq as -> <-.
    destruct k as [h tech]. simpl. unfold hour_tech_group.
    split; [| reflexivity].
    apply group_keys_In in Hk; [| typeclasses eauto].
    destruct Hk as [r Hr]. intros Hnil.
    assert (Hin : In r (group_rows Z_string_compare hour_tech_key (h, tech) df))
      by (apply group_rows_In; [typeclasses eauto | exact Hr]).
    rewrite Hnil in Hin. destruct Hin.
Qed.

(** X15: every row of [busy_hour] repeats a row of [site_hour]: the same
    site and hour, with [hour_avg_util] equal to that row's [avg_util]. *)
Theorem busy_hour_from_site_hour (input : frame) :
  exists t, compute_aggregations input = Ok t
  /\ forall b, In b (busy_hour t) ->
       exists x, In x (site_hour t)
                 /\ sh_site_id x = bh_site_id b
                 /\ sh_hour x = bh_hour b
                 /\ sh_avg_util x = hour_avg_util b.
Proof.
  destruct (compute_aggregations_tables input) as [sh [Hsh Ht]].
  eexists. split; [exact Ht |]. cbn [busy_hour site_hour].
  intros b Hb. apply head1_In in Hb. destruct Hb as [Hb _].
  apply sort_In in Hb. apply in_map_iff in Hb. destruct Hb as [kg [<- Hkg]].
  destruct (@Forall2_In_l _ _ _ _ _ kg Hsh Hkg) as [x [Hx Hagg]].
  apply site_hour_agg_key in Hagg. destruct Hagg as [Hkey Havg].
  exists x. split; [exact Hx |].
  destruct kg as [[site h] g]. simpl in *. injection Hkey as -> ->.
  repeat split. exact Havg.
Qed.

Lemma dt_hour_range (ts : option Z) (h : Z) : dt_hour ts = Some h -> 0 <= h <= 23.
Proof.
  destruct ts as [t |]; simpl; [| discriminate]. intros [= <-].
  pose proof (Z.mod_pos_bound (t / NS_PER_HOUR) 24 ltac:(lia)). lia.
Qed.

Lemma working_dashboard_frame (rows : list usage_record) :
  working (dashboard_frame rows) = working (Plain rows).
Proof. unfold dashboard_frame, with_hour, working. now rewrite map_map. Qed.

(** X16: the hour column the dashboard adds before calling the engine
    changes nothing: the engine returns the same tables for the table with
    and without it.  Every hour in [site_hour], [busy_hour] and
    [hour_of_day] is then an hour of day between 0 and 23. *)
Theorem derived_hours_in_day (rows : list usage_record) :
  compute_aggregations (dashboard_frame rows) = compute_aggregations (Plain rows)
  /\ exists t, compute_aggregations (Plain rows) = Ok t
     /\ (forall x, In x (site_hour t) -> 0 <= sh_hour x <= 23)
     /\ (forall b, In b (busy_hour t) -> 0 <= bh_hour b <= 23)
     /\ (forall z, In z (hour_of_day t) -> 0 <= hd_hour z <= 23).
Proof.
  split.
  - unfold compute_aggregations. now rewrite working_dashboard_frame.
  - destruct (compute_aggregations_tables (Plain rows)) as [sh [Hsh Ht]].
    eexists. split; [exact Ht |]. cbn [site_hour busy_hour hour_of_day].
    set (df := working (Plain rows)) in *.
    assert (Hhour : forall r h, In r df -> hour r = Some h -> 0 <= h <= 23).
    { intros r h Hr Hh. unfold df, working in Hr. apply in_map_iff in Hr.
      destruct Hr as [u [<- _]]. simpl in Hh. now apply dt_hour_range in Hh. }
    assert (Hkey : forall k, In k (group_keys site_Z_compare site_hour_key df) ->
                             0 <= snd k <= 23).
    { intros [site h] Hk. apply group_keys_In in Hk; [| typeclasses eauto].
      destruct Hk as [r [Hr Hkey]]. unfold site_hour_key, pair_key in Hkey.
      destruct (site_id (rec r)); [| discriminate].
      destruct (hour r) as [h' |] eqn:Hh; [| discriminate].
      injection Hkey as _ <-. simpl. now apply Hhour with r. }
    split; [| split].
    + intros x Hx. destruct (@Forall2_In_r _ _ _ _ _ x Hsh Hx) as [kg [Hkg Hagg]].
      apply site_hour_agg_key in Hagg. destruct Hagg as [Hk _].
      assert (Hin : In (fst kg) (group_keys site_Z_compare site_hour_key df))
        by (rewrite <- groupby_keys; now apply in_map).
      apply Hkey in Hin. rewrite <- Hk in Hin. exact Hin.
    + intros b Hb. apply head1_In in Hb. destruct Hb as [Hb _].
      apply sort_In in Hb. apply in_map_iff in Hb. destruct Hb as [kg [<- Hkg]].
      assert (Hin : In (fst kg) (group_keys site_Z_compare site_hour_key df))
        by (rewrite <- groupby_keys; now apply in_map).
      apply Hkey in Hin. destruct kg as [[site h] g]. exact Hin.
    + intros z Hz. apply in_map_iff in Hz. destruct Hz as [[[h tc] g] [<- Hkg]].
      assert (Hin : In (h, tc) (group_keys Z_string_compare hour_tech_key df))
        by (rewrite <- groupby_keys;
            apply in_map_iff; exists ((h, tc), g); split; [reflexivity | exact Hkg]).
      apply group_keys_In in Hin; [| typeclasses eauto].
      destruct Hin as [r [Hr Hkey']]. unfold hour_tech_key, pair_key in Hkey'.
      destruct (hour r) as [h' |] eqn:Hh; [| discriminate].
      destruct (tech (rec r)); [| discriminate].
      injection Hkey' as <- _. simpl. now apply Hhour with r.
Qed.

Lemma StronglySorted_of_map {A B : Type} (R : B -> B -> Prop) (f : A -> B)
    (l : list A) :
  StronglySorted R (map f l) -> StronglySorted (fun a b => R (f a) (f b)) l.
Proof.
  induction l as [| a l IH]; simpl; intros Hs; [constructor |].
  apply StronglySorted_inv in Hs. destruct Hs as [Hs Ha].
  constructor; [now apply IH |].
  rewrite Forall_forall in Ha |- *. intros b Hb. apply Ha. now apply in_map.
Qed.

(** X17: when the records with a utilization of at least 80 already stand
    in the order of the congestion table, the table lists exactly these
    records, projected, in their input order; records that tie on
    utilization and latency keep their input order. *)
Theorem congested_cells_of_sorted_input (input : frame)
    (Hsorted :
       StronglySorted
         (fun a b => view_order a b = true)
         (map project_record
              (filter (fun r => Num.geb (utilization_pct r) (Num.of_Z 80))
                      (records input)))) :
  exists t, compute_aggregations input = Ok t
  /\ congested_cells t
     = map project_record
           (filter (fun r => Num.geb (utilization_pct r) (Num.of_Z 80))
                   (records input)).
Proof.
  destruct (compute_aggregations_tables input) as [sh [_ Ht]].
  eexists. split; [exact Ht |]. cbn [congested_cells].
  set (df := working input).
  assert (Hrec : map project_record
                     (filter (fun r => Num.geb (utilization_pct r) (Num.of_Z 80))
                             (records input))
                 = map project (filter is_congested df)).
  { rewrite <- working_records. fold df.
    rewrite <- (filter_map_commute rec
                  (fun r => Num.geb (utilization_pct r) (Num.of_Z 80)) df).
    now rewrite map_map. }
  rewrite Hrec in Hsorted |- *. f_equal.
  apply sort_of_sorted. apply StronglySorted_of_map in Hsorted. exact Hsorted.
Qed.

Lemma congested_cells_of_sorted_input_witness :
  exists t, compute_aggregations presorted_table = Ok t
  /\ congested_cells t
     = map project_record
           (filter (fun r => Num.geb (utilization_pct r) (Num.of_Z 80))
                   (records presorted_table)).
Proof.
  apply (congested_cells_of_sorted_input presorted_table).
  vm_compute.
  repeat (constructor; [| repeat (constructor; try reflexivity)]).
  constructor.
Defined.

(** ** Database collaborator *)

(** X18: the connection string is refused exactly when the dialect (the
    value of [DB_DIALECT], or [postgresql] when the variable is not set)
    begins with neither [postgres] nor [mysql], and the error names the
    dialect; in particular an unset [DB_DIALECT] is never refused.  Every
    accepted dialect gives one of two schemes followed by
    [user:password@host:port/name], each part taken from its variable or
    its default. *)
Theorem dsn_from_env_exact (env : string -> option string) :
  let dialect := getenv env "DB_DIALECT" "postgresql" in
  let target :=
    (getenv env "DB_USER" "user" ++ ":" ++ getenv env "DB_PASS" "pass" ++ "@"
     ++ getenv env "DB_HOST" "localhost" ++ ":" ++ getenv env "DB_PORT" "5432"
     ++ "/" ++ getenv env "DB_NAME" "telecom")%string in
  ((exists e, _dsn_from_env env = Err e)
   <-> startswith dialect "postgres" = false /\ startswith dialect "mysql" = false)
  /\ (forall e, _dsn_from_env env = Err e ->
        e = ValueError ("Unsupported DB_DIALECT: " ++ dialect)%string)
  /\ (env "DB_DIALECT"%string = None ->
      _dsn_from_env env = Ok ("postgresql+psycopg2://" ++ target)%string)
  /\ (forall dsn, _dsn_from_env env = Ok dsn ->
        (startswith dialect "postgres" = true
         /\ dsn = ("postgresql+psycopg2://" ++ target)%string)
        \/ (startswith dialect "postgres" = false
            /\ startswith dialect "mysql" = true
            /\ dsn = ("mysql+pymysql://" ++ target)%string)).
Proof.
  intros dialect target. unfold _dsn_from_env. fold dialect. fold target.
  split; [| split; [| split]].
  - destruct (startswith dialect "postgres");
      [split; [intros [e H]; discriminate | intros [H _]; discriminate] |].
    destruct (startswith dialect "mysql");
      [split; [intros [e H]; discriminate | intros [_ H]; discriminate] |].
    split; [auto | eauto].
  - intros e. destruct (startswith dialect "postgres"); [discriminate |].
    destruct (startswith dialect "mysql"); [discriminate |].
    now intros [= <-].
  - intros Hunset.
    assert (Hd : dialect = "postgresql"%string)
      by (unfold dialect, getenv; now rewrite Hunset).
    rewrite Hd. reflexivity.
  - intros dsn. destruct (startswith dialect "postgres").
    + intros [= <-]. left. auto.
    + destruct (startswith dialect "mysql"); [| discriminate].
      intros [= <-]. right. auto.
Qed.

Lemma positive_capacity (c : Q) :
  Num.gtb (Num.Fin c) (Num.of_Z 0) = true -> Qeq_bool c 0 = false.
Proof.
  unfold Num.gtb, Num.ltb, Num.of_Z, Num.leb, Qle_bool. simpl.
  rewrite andb_true_iff, negb_true_iff, Z.leb_le, Z.leb_gt. intros [_ H].
  destruct (Qeq_bool c 0) eqn:Hc; [| reflexivity].
  apply Qeq_bool_zero in Hc. lia.
Qed.

(** X19: for finite or missing operands, the utilization the database
    query computes is missing exactly when the capacity is not greater
    than zero (missing included) or the throughput is missing; it is not
    clipped. *)
Theorem sql_utilization_null_exactly (capacity throughput : Num.t)
    (Hcap : is_infinite capacity = false)
    (Hthr : is_infinite throughput = false) :
  Num.isna (fetch_sample_usage_utilization capacity throughput) = true
  <-> Num.gtb capacity (Num.of_Z 0) = false \/ Num.isna throughput = true.
Proof.
  unfold fetch_sample_usage_utilization.
  destruct (Num.gtb capacity (Num.of_Z 0)) eqn:Hpos;
    [| split; [now left | reflexivity]].
  destruct capacity as [| | c |]; try discriminate.
  destruct throughput as [| | a |]; try discriminate.
  - split; [now right | reflexivity].
  - simpl. rewrite (positive_capacity _ Hpos). simpl.
    split; [discriminate | intros [H | H]; discriminate].
Qed.

Lemma sql_utilization_null_exactly_witness :
  Num.isna (fetch_sample_usage_utilization (Num.of_Z 0) (Num.of_Z 50)) = true
  <-> Num.gtb (Num.of_Z 0) (Num.of_Z 0) = false \/ Num.isna (Num.of_Z 50) = true.
Proof.
  apply (sql_utilization_null_exactly (Num.of_Z 0) (Num.of_Z 50)); reflexivity.
Defined.
